(** * ble_advertiser.py: a shallow embedding and its specification

    The script registers a BLE advertisement with BlueZ over D-Bus.  This
    development embeds the three parts of [src/ble_advertiser.py] that carry
    behaviour of their own:

    - [unpack_variants] (lines 45-60), over a small universe of Python values;
    - the class [BLEAdvertisement] (lines 63-116), whose instances live next to
      a heap of Python list objects, because [add_service_uuid] appends in
      place and default arguments are evaluated once;
    - [main] (lines 119-170), as a computation in a trace-and-exception monad,
      run against an arbitrary daemon. *)

From Stdlib Require Import ZArith Strings.Byte Strings.Ascii.
From stdpp Require Import base option strings list gmap.

Set Warnings "-register-all".
Open Scope string_scope.
Open Scope list_scope.

(** ** Python values *)

Module Py.

(** Dictionary keys that occur in the script: strings (object paths,
    interface and property names) and integers (manufacturer identifiers). *)
Inductive pykey : Type :=
| KStr (s : string)
| KInt (n : Z).

#[global] Instance pykey_eq_dec : EqDecision pykey.
Proof. solve_decision. Defined.

(** The values that travel through [unpack_variants] and the message
    bodies.  A dictionary is its list of items in iteration (insertion)
    order; [Variant(signature, value)] is dbus_fast's wrapper. *)
Inductive pyval : Type :=
| PNone
| PBool (b : bool)
| PInt (n : Z)
| PStr (s : string)
| PBytes (bs : list byte)
| PVariant (signature : string) (value : pyval)
| PList (xs : list pyval)
| PDict (items : list (pykey * pyval)).

Abbreviation dict := (list (pykey * pyval)).

(** A Python exception, by class. *)
Inductive exn : Type :=
| AttributeError
| IndexError
| TypeError
| InvalidObjectPathError.

(** [k in d] *)
Definition dict_contains (k : pykey) (d : dict) : bool :=
  bool_decide (k ∈ d.*1).

(** [d[k]], as [d.get(k)] *)
Fixpoint dict_get (k : pykey) (d : dict) : option pyval :=
  match d with
  | [] => None
  | (k', v) :: rest => if decide (k' = k) then Some v else dict_get k rest
  end.

(** [d[k] = v]: an existing key keeps its position and takes the new
    value, a new key goes to the end. *)
Fixpoint dict_set (k : pykey) (v : pyval) (d : dict) : dict :=
  match d with
  | [] => [(k, v)]
  | (k', v') :: rest =>
      if decide (k' = k) then (k', v) :: rest else (k', v') :: dict_set k v rest
  end.

(** [x.value if isinstance(x, Variant) else x] (lines 54 and 58) *)
Definition variant_value (x : pyval) : pyval :=
  match x with
  | PVariant _ value => value
  | _ => x
  end.

(** The body of the loop of [unpack_variants] (lines 54-58): the value
    stored under [k] for an item [(k, v)].  The recursive call of line 56 is
    the inner loop, which is [unpack_variants] itself (see
    [unpack_entry_dict]). *)
Fixpoint unpack_entry (v : pyval) : pyval :=
  match variant_value v with
  | PDict d =>
      PDict ((fix loop (items : dict) (unpacked : dict) {struct items} : dict :=
                match items with
                | [] => unpacked
                | (k, x) :: rest => loop rest (dict_set k (unpack_entry x) unpacked)
                end) d [])
  | PList xs => PList (map variant_value xs)
  | w => w
  end.

(** The loop of lines 53-59 over the remaining items, [unpacked] being the
    dictionary built so far. *)
Fixpoint unpack_loop (items : dict) (unpacked : dict) : dict :=
  match items with
  | [] => unpacked
  | (k, v) :: rest => unpack_loop rest (dict_set k (unpack_entry v) unpacked)
  end.

(** [unpack_variants(dictionary)] for a dictionary (lines 45-60). *)
Definition unpack_variants (dictionary : dict) : dict :=
  unpack_loop dictionary [].

(** [unpack_variants(x)] for an arbitrary value: [x.items()] raises
    [AttributeError] unless [x] is a dictionary. *)
Definition unpack_variants_of (x : pyval) : exn + dict :=
  match x with
  | PDict d => inr (unpack_variants d)
  | _ => inl AttributeError
  end.

End Py.

(** ** The advertisement object *)

Module Advertisement.
Import Py.

(** Python lists are objects: a variable or attribute holds a reference, and
    [append] changes the object every holder of the reference sees.  The
    heap maps the address of each list object to its current elements. *)
Definition loc : Type := positive.
Abbreviation heap := (gmap loc (list pyval)).

(** Module constants (lines 13-21). *)
Definition OBJECT_MANAGER_INTERFACE : string := "org.freedesktop.DBus.ObjectManager".
Definition PROPERTIES_INTERFACE : string := "org.freedesktop.DBus.Properties".
Definition BLUEZ_SERVICE : string := "org.bluez".
Definition ADAPTER_INTERFACE : string := "org.bluez.Adapter1".
Definition ADVERTISEMENT_MONITOR_INTERFACE : string := "org.bluez.AdvertisementMonitor1".
Definition LE_ADVERTISING_MANAGER_INTERFACE : string := "org.bluez.LEAdvertisingManager1".
Definition LE_ADVERTISEMENT_IFACE : string := "org.bluez.LEAdvertisement1".

(** The instance attributes assigned by [__init__] (lines 73-79), typed by
    the annotations of the constructor.  [_service_uuids] is a reference to
    a list object; the dictionary of manufacturer data is never changed in
    place by the class, so it is held by value. *)
Record BLEAdvertisement : Type := mkBLEAdvertisement {
  path : string;
  service_name : string;
  _advertisement_type : string;
  _service_uuids : loc;
  _manufacturer_data : dict;
  service_data : pyval;
  _local_name : string
}.

(** [BLEAdvertisement.__init__] (lines 64-80). *)
Definition __init__ (advertising_type : string) (service_uuids : loc)
    (manufacturer_data : dict) (local_name : string) : BLEAdvertisement :=
  {| path := "/org/bluez/advertisement/test1";
     service_name := LE_ADVERTISEMENT_IFACE;
     _advertisement_type := advertising_type;
     _service_uuids := service_uuids;
     _manufacturer_data := manufacturer_data;
     service_data := PNone;
     _local_name := local_name |}.

(** Default arguments are evaluated once, when the [def] statement runs
    (lines 66-71): the list [["ABCD"]] is one object, allocated at
    [default_service_uuids] in the heap the module starts with, and every
    call that omits [service_uuids] receives that same reference. *)
Definition default_advertising_type : string := "broadcast".
Definition default_service_uuids : loc := 1%positive.
Definition default_manufacturer_data : dict :=
  [(KInt 0x123, PVariant "ay" (PBytes [x01; x02; x03; x04; x05]))].
Definition default_local_name : string := "TestAdvertisement".

Definition heap_at_import : heap := {[ default_service_uuids := [PStr "ABCD"] ]}.

(** [BLEAdvertisement()] *)
Definition new_default : BLEAdvertisement :=
  __init__ default_advertising_type default_service_uuids
           default_manufacturer_data default_local_name.

(** The getters (lines 82-96). *)
Definition advertisement_type (self : BLEAdvertisement) : string :=
  _advertisement_type self.
Definition service_uuids (self : BLEAdvertisement) : loc :=
  _service_uuids self.
Definition manufacturer_data (self : BLEAdvertisement) : dict :=
  _manufacturer_data self.
Definition local_name (self : BLEAdvertisement) : string :=
  _local_name self.

(** What a reader of the [ServiceUUIDs] property sees: the elements of the
    list object the getter returned. *)
Definition service_uuids_value (h : heap) (self : BLEAdvertisement) : option (list pyval) :=
  h !! service_uuids self.

(** The setters (lines 98-112).  Each returns the object and the heap after
    the call. *)
Definition set_advertisement_type (ad_type : string)
    (self : BLEAdvertisement) (h : heap) : BLEAdvertisement * heap :=
  (mkBLEAdvertisement (path self) (service_name self) ad_type (_service_uuids self)
     (_manufacturer_data self) (service_data self) (_local_name self), h).

Definition add_service_uuid (uuid : pyval)
    (self : BLEAdvertisement) (h : heap) : BLEAdvertisement * heap :=
  (self, alter (λ xs, xs ++ [uuid]) (_service_uuids self) h).

Definition add_manufacturer_data (data : dict)
    (self : BLEAdvertisement) (h : heap) : BLEAdvertisement * heap :=
  (mkBLEAdvertisement (path self) (service_name self) (_advertisement_type self)
     (_service_uuids self) data (service_data self) (_local_name self), h).

Definition add_local_name (name : string)
    (self : BLEAdvertisement) (h : heap) : BLEAdvertisement * heap :=
  (mkBLEAdvertisement (path self) (service_name self) (_advertisement_type self)
     (_service_uuids self) (_manufacturer_data self) (service_data self) name, h).

(** [Release] (lines 114-116): the line it prints. *)
Definition Release (self : BLEAdvertisement) : string :=
  path self +:+ ": Released!".

(** The public operations of an exported object, and a run of them. *)
Inductive operation : Type :=
| SetType (ad_type : string)
| SetServiceUUIDs (uuid : pyval)
| SetManufacturerData (data : dict)
| SetLocalName (name : string)
| CallRelease.

Definition apply_operation (op : operation) (st : BLEAdvertisement * heap)
  : BLEAdvertisement * heap :=
  match op with
  | SetType t => set_advertisement_type t st.1 st.2
  | SetServiceUUIDs u => add_service_uuid u st.1 st.2
  | SetManufacturerData d => add_manufacturer_data d st.1 st.2
  | SetLocalName n => add_local_name n st.1 st.2
  | CallRelease => st
  end.

Definition apply_operations (ops : list operation) (st : BLEAdvertisement * heap)
  : BLEAdvertisement * heap :=
  foldl (λ s op, apply_operation op s) st ops.

(** The [Type] values handed to the object, oldest first: the constructor
    argument, then the argument of each call of the [Type] setter. *)
Definition supplied_types (advertising_type : string) (ops : list operation) : list string :=
  advertising_type ::
  omap (λ op, match op with SetType t => Some t | _ => None end) ops.

End Advertisement.

(** ** The class as an exported interface *)

Module Interface.

(** [DBusType] (lines 24-42): the signature strings used as annotations. *)
Module DBusType.
Definition String : string := "s".
Definition ArrayofString : string := "as".
Definition DictIntVariant : string := "a{qv}".
End DBusType.

(** The decorators of the class body. *)
Inductive decorator : Type :=
| dbus_property (name : string)
| setter (property : string)
| method (name : string).

(** A decorated [def] of the class body: its decorator, its name, the
    annotation of its parameter after [self] and its return annotation
    ([None]: no such parameter, no annotation or [-> None]). *)
Record member : Type := mkMember {
  decorated_with : decorator;
  def_name : string;
  parameter : option (string * string);
  returns : option string
}.

(** The decorated members of [BLEAdvertisement], in source order (lines
    82-116). *)
Definition BLEAdvertisement_members : list member :=
  [ mkMember (dbus_property "Type") "advertisement_type" None (Some DBusType.String);
    mkMember (dbus_property "ServiceUUIDs") "service_uuids" None (Some DBusType.ArrayofString);
    mkMember (dbus_property "ManufacturerData") "manufacturer_data" None
             (Some DBusType.DictIntVariant);
    mkMember (dbus_property "LocalName") "local_name" None (Some DBusType.String);
    mkMember (setter "advertisement_type") "set_advertisement_type"
             (Some ("ad_type", DBusType.String)) None;
    mkMember (setter "service_uuids") "add_service_uuid"
             (Some ("uuid", DBusType.String)) None;
    mkMember (setter "manufacturer_data") "add_manufacturer_data"
             (Some ("data", DBusType.DictIntVariant)) None;
    mkMember (setter "local_name") "add_local_name"
             (Some ("name", DBusType.String)) None;
    mkMember (method "Release") "Release" None None ].

(** The properties the interface carries: one per [@dbus_property] getter,
    under the decorator's name and with the getter's return annotation as
    signature.  A [setter] member adds no property, it makes the one it
    names writable. *)
Definition interface_properties (members : list member) : list (string * string) :=
  omap (λ m, match decorated_with m, returns m with
             | dbus_property name, Some sig => Some (name, sig)
             | _, _ => None
             end) members.

Definition property_setters (members : list member) : list string :=
  omap (λ m, match decorated_with m with
             | setter property => Some property
             | _ => None
             end) members.

(** D-Bus types, and the reading of a signature string as one complete type
    (the grammar of the D-Bus specification, which dbus_fast applies to the
    annotations). *)
Inductive dbus_type : Type :=
| TByte | TBoolean | TInt16 | TUInt16 | TInt32 | TUInt32 | TInt64 | TUInt64
| TDouble | TString | TObjectPath | TSignature | TUnixFd | TVariant
| TArray (element : dbus_type)
| TDictionary (key value : dbus_type)
| TStruct (fields : list dbus_type).

Definition basic_type (c : ascii) : option dbus_type :=
  match c with
  | "y" => Some TByte    | "b" => Some TBoolean
  | "n" => Some TInt16   | "q" => Some TUInt16
  | "i" => Some TInt32   | "u" => Some TUInt32
  | "x" => Some TInt64   | "t" => Some TUInt64
  | "d" => Some TDouble  | "s" => Some TString
  | "o" => Some TObjectPath | "g" => Some TSignature
  | "h" => Some TUnixFd
  | _ => None
  end%char.

Fixpoint parse_type (fuel : nat) (s : string) : option (dbus_type * string) :=
  match fuel, s with
  | S fuel, String "a" (String "{" (String k rest)) =>
      key ← basic_type k;
      '(value, rest) ← parse_type fuel rest;
      match rest with
      | String "}" rest => Some (TDictionary key value, rest)
      | _ => None
      end
  | S fuel, String "a" rest =>
      '(element, rest) ← parse_type fuel rest;
      Some (TArray element, rest)
  | S fuel, String "(" rest =>
      '(fields, rest) ← parse_fields fuel rest;
      match fields with
      | [] => None
      | _ :: _ => Some (TStruct fields, rest)
      end
  | S _, String "v" rest => Some (TVariant, rest)
  | S _, String c rest => t ← basic_type c; Some (t, rest)
  | _, _ => None
  end
with parse_fields (fuel : nat) (s : string) : option (list dbus_type * string) :=
  match fuel, s with
  | S _, String ")" rest => Some ([], rest)
  | S fuel, _ =>
      '(t, rest) ← parse_type fuel s;
      '(ts, rest) ← parse_fields fuel rest;
      Some (t :: ts, rest)
  | 0, _ => None
  end.

(** A signature that is exactly one complete type. *)
Definition single_type (sig : string) : option dbus_type :=
  match parse_type (S (String.length sig)) sig with
  | Some (t, "") => Some t
  | _ => None
  end.

End Interface.

(** ** The message bus *)

Module DBus.
Import Py.

(** [dbus_fast.MessageType] *)
Inductive MessageType : Type :=
| METHOD_CALL
| METHOD_RETURN
| ERROR
| SIGNAL.

#[global] Instance MessageType_eq_dec : EqDecision MessageType.
Proof. solve_decision. Defined.

(** The fields of [dbus_fast.Message] the script writes or reads.  [path]
    holds whatever [main] passes: the fallback string or a key of the reply
    dictionary.  A request is built with [Message_init] below, which checks
    the path. *)
Record Message : Type := mkMessage {
  destination : string;
  path : pykey;
  interface : string;
  member : string;
  signature : string;
  body : list pyval;
  message_type : MessageType
}.

(** The check [Message(...)] makes on its [path] argument before the
    message exists (dbus_fast's [assert_object_path_valid], the object path
    grammar of the D-Bus specification): a path is a string that starts with
    "/", and is either "/" alone or a sequence of elements separated by "/",
    each matching [^[A-Za-z0-9_]+$].  The other arguments [main] passes
    (destination, interface, member, signature) are constants the
    constructor accepts. *)
Definition is_path_char (c : ascii) : bool :=
  let n := nat_of_ascii c in
  (Nat.leb 65 n && Nat.leb n 90) || (Nat.leb 97 n && Nat.leb n 122)
  || (Nat.leb 48 n && Nat.leb n 57) || Nat.eqb n 95.

Fixpoint all_path_chars (s : string) : bool :=
  match s with
  | EmptyString => true
  | String c rest => is_path_char c && all_path_chars rest
  end.

(** [s.split(sep)] *)
Fixpoint split (sep : ascii) (s : string) : list string :=
  match s with
  | EmptyString => [EmptyString]
  | String c rest =>
      if Ascii.eqb c sep then EmptyString :: split sep rest
      else match split sep rest with
           | element :: elements => String c element :: elements
           | [] => [String c EmptyString]
           end
  end.

(** The part of [s] that [$] lets the pattern end at: all of [s], or [s]
    without its last character when that is a newline. *)
Fixpoint before_final_newline (s : string) : string :=
  match s with
  | EmptyString => EmptyString
  | String c EmptyString => if Ascii.eqb c "010" then EmptyString else s
  | String c rest => String c (before_final_newline rest)
  end.

(** [_path_re.search(element) is not None] *)
Definition matches_path_re (element : string) : bool :=
  let w := before_final_newline element in
  negb (String.eqb w EmptyString) && all_path_chars w.

Definition is_object_path_valid (path : string) : bool :=
  match path with
  | EmptyString => false
  | String c rest =>
      Ascii.eqb c "/"
      && (String.eqb rest EmptyString || forallb matches_path_re (split "/" rest))
  end.

(** A key that is not a string is refused with [TypeError], a string that
    is not an object path with [InvalidObjectPathError]. *)
Definition assert_object_path_valid (p : pykey) : exn + unit :=
  match p with
  | KInt _ => inl TypeError
  | KStr s => if is_object_path_valid s then inr tt else inl InvalidObjectPathError
  end.

(** [Message(destination=..., path=..., ...)]: the message with the given
    fields, or the exception the constructor raises. *)
Definition Message_init (fields : Message) : exn + Message :=
  match assert_object_path_valid (path fields) with
  | inl e => inl e
  | inr _ => inr fields
  end.

(** What [print] is given: a literal, or the f-string of line 168, kept as
    its prefix and the interpolated body. *)
Inductive line : Type :=
| Literal (text : string)
| ErrorLine (reply_body : list pyval).

(** The operations [main] performs on the outside world, in the order it
    performs them.  What is modelled of the library is the check of a
    request's path when the request is built ([Message_init]).  Its
    input/output failures (no bus to connect to, a name request refused, a
    connection lost during a call) are outside this model: every operation
    on the bus completes, and a call is answered by whatever the daemon
    replies. *)
Inductive event : Type :=
| Connect
| Export (object_path : string) (object : Advertisement.BLEAdvertisement)
| RequestName (name : string)
| Call (msg : Message)
| Print (l : line)
| WaitForDisconnect.

(** The daemon side of [bus.call]: the reply to a request, which may depend
    on everything that happened before.  [None] is Python's [None]. *)
Definition daemon : Type := list event → Message → option Message.

(** Computations that extend the trace and may raise. *)
Definition M (A : Type) : Type := list event → (exn + A) * list event.

Definition ret {A} (a : A) : M A := λ tr, (inr a, tr).

Definition bind {A B} (m : M A) (k : A → M B) : M B :=
  λ tr, match m tr with
        | (inr a, tr') => k a tr'
        | (inl e, tr') => (inl e, tr')
        end.

Definition raise {A} (e : exn) : M A := λ tr, (inl e, tr).

Definition lift {A} (r : exn + A) : M A :=
  match r with
  | inl e => raise e
  | inr a => ret a
  end.

Definition emit (e : event) : M unit := λ tr, (inr tt, tr ++ [e]).

(** [await bus.call(msg)] *)
Definition call (d : daemon) (msg : Message) : M (option Message) :=
  λ tr, (inr (d tr msg), tr ++ [Call msg]).

#[global] Instance M_ret : MRet M := @ret.
#[global] Instance M_bind : MBind M := λ A B k m, bind m k.

(** Running a computation from the empty trace. *)
Definition run {A} (m : M A) : (exn + A) * list event := m [].
Definition trace {A} (m : M A) : list event := (run m).2.
Definition outcome {A} (m : M A) : exn + A := (run m).1.

End DBus.

(** ** The main routine *)

Module Main.
Import Py DBus.
Import Advertisement (LE_ADVERTISING_MANAGER_INTERFACE, LE_ADVERTISEMENT_IFACE,
                      BLUEZ_SERVICE, OBJECT_MANAGER_INTERFACE).

(** [reply.body[0].items()] (line 135): [None] has no [body], an empty body
    has no element 0, and only a dictionary has [items]. *)
Definition managed_objects (reply : option Message) : exn + dict :=
  match reply with
  | None => inl AttributeError
  | Some r =>
      match body r with
      | [] => inl IndexError
      | PDict objects :: _ => inr objects
      | _ :: _ => inl AttributeError
      end
  end.

(** The loop of lines 135-139 over the remaining items. *)
Fixpoint select_adapter (items : dict) (adapter_path : pykey) : exn + pykey :=
  match items with
  | [] => inr adapter_path
  | (path, interfaces) :: rest =>
      match unpack_variants_of interfaces with
      | inl e => inl e
      | inr props =>
          select_adapter rest
            (if dict_contains (KStr LE_ADVERTISING_MANAGER_INTERFACE) props
             then path else adapter_path)
      end
  end.

(** The fields of the three requests (lines 126-131, 143-150, 155-162). *)
Definition get_managed_objects_msg : Message :=
  {| destination := BLUEZ_SERVICE;
     path := KStr "/";
     member := "GetManagedObjects";
     interface := OBJECT_MANAGER_INTERFACE;
     signature := "";
     body := [];
     message_type := METHOD_CALL |}.

Definition unregister_msg (adapter_path : pykey) (test_path : string) : Message :=
  {| destination := BLUEZ_SERVICE;
     path := adapter_path;
     member := "UnregisterAdvertisement";
     interface := LE_ADVERTISING_MANAGER_INTERFACE;
     signature := "o";
     body := [PStr test_path];
     message_type := METHOD_CALL |}.

Definition register_msg (adapter_path : pykey) (test_path : string) : Message :=
  {| destination := BLUEZ_SERVICE;
     path := adapter_path;
     member := "RegisterAdvertisement";
     interface := LE_ADVERTISING_MANAGER_INTERFACE;
     signature := "oa{sv}";
     body := [PStr test_path; PDict []];
     message_type := METHOD_CALL |}.

(** Lines 164-168. *)
Definition report (reply : option Message) : M unit :=
  match reply with
  | Some r =>
      match message_type r with
      | METHOD_RETURN => emit (Print (Literal "Advertisement registered"))
      | ERROR => emit (Print (ErrorLine (body r)))
      | _ => ret tt
      end
  | None => ret tt
  end.

(** [main] (lines 119-170), against the daemon [d].  Each request is
    constructed, which may raise, and then sent. *)
Definition main (d : daemon) : M unit :=
  emit Connect ;;
  let test := Advertisement.new_default in
  emit (Export (Advertisement.path test) test) ;;
  emit (RequestName LE_ADVERTISEMENT_IFACE) ;;
  request ← lift (Message_init get_managed_objects_msg) ;
  reply ← call d request ;
  objects ← lift (managed_objects reply) ;
  adapter_path ← lift (select_adapter objects (KStr "/org/bluez/hci0")) ;
  request ← lift (Message_init (unregister_msg adapter_path (Advertisement.path test))) ;
  reply ← call d request ;
  request ← lift (Message_init (register_msg adapter_path (Advertisement.path test))) ;
  reply ← call d request ;
  report reply ;;
  emit WaitForDisconnect.

End Main.

(** ** Definitions used to state the properties *)

Module Spec.
Import Py DBus Main.

(** *** For [unpack_variants]

    The result described value by value: a [Variant] gives way to its
    payload; if what is then at hand is a dictionary, it keeps its keys and
    each of its values is described the same way; if it is a list, each
    element that is a [Variant] gives way to its payload and nothing inside
    the elements is touched; anything else is left as it is. *)
Fixpoint unpacked_value (v : pyval) : pyval :=
  match variant_value v with
  | PDict d => PDict (map (λ '(k, x), (k, unpacked_value x)) d)
  | PList xs => PList (map variant_value xs)
  | w => w
  end.

Definition unpacked_dict (d : dict) : dict :=
  map (λ '(k, x), (k, unpacked_value x)) d.

(** Python dictionaries have pairwise distinct keys.  [distinct_keys v]
    says so for every dictionary [unpack_variants] reaches in [v]: [v]
    itself or its payload, and below it the values of dictionaries. *)
Fixpoint distinct_keys (v : pyval) : Prop :=
  match v with
  | PVariant _ value => distinct_keys value
  | PDict d =>
      NoDup d.*1 ∧
      (fix all (items : dict) : Prop :=
         match items with
         | [] => True
         | (_, x) :: rest => distinct_keys x ∧ all rest
         end) d
  | _ => True
  end.

(** *** For [main] *)

(** Everything [main] does before its first request. *)
Definition preamble : list event :=
  [ Connect;
    Export (Advertisement.path Advertisement.new_default) Advertisement.new_default;
    RequestName Advertisement.LE_ADVERTISEMENT_IFACE ].

(** The reply the daemon [d] gives to [GetManagedObjects]. *)
Definition enumeration_reply (d : daemon) : option Message :=
  d preamble get_managed_objects_msg.

(** The requests of a trace, and the lines it prints. *)
Definition calls (tr : list event) : list Message :=
  omap (λ e, match e with Call m => Some m | _ => None end) tr.

Definition printed (tr : list event) : list line :=
  omap (λ e, match e with Print l => Some l | _ => None end) tr.

(** The requests of a trace, each with the reply the daemon [d] gave: the
    reply to the request at position [i] is [d] applied to the [i] events
    before it. *)
Fixpoint exchanges_from (d : daemon) (before tr : list event)
  : list (Message * option Message) :=
  match tr with
  | [] => []
  | Call m :: rest => (m, d before m) :: exchanges_from d (before ++ [Call m]) rest
  | e :: rest => exchanges_from d (before ++ [e]) rest
  end.

Definition exchanges (d : daemon) (tr : list event) : list (Message * option Message) :=
  exchanges_from d [] tr.

(** The six operations the ordering property speaks of. *)
Inductive remote_operation : Type :=
| ConnectBus
| ExportObject
| EnumerateObjects
| UnregisterAdvertisement
| RegisterAdvertisement
| AwaitDisconnect.

#[global] Instance remote_operation_eq_dec : EqDecision remote_operation.
Proof. solve_decision. Defined.

(** Which of the six an event is.  Requesting the bus name (line 124) and
    printing are not among them. *)
Definition remote_operation_of (e : event) : option remote_operation :=
  match e with
  | Connect => Some ConnectBus
  | Export _ _ => Some ExportObject
  | Call m =>
      if decide (member m = "GetManagedObjects") then Some EnumerateObjects
      else if decide (member m = "UnregisterAdvertisement") then Some UnregisterAdvertisement
      else if decide (member m = "RegisterAdvertisement") then Some RegisterAdvertisement
      else None
  | WaitForDisconnect => Some AwaitDisconnect
  | RequestName _ | Print _ => None
  end.

Definition remote_operations (tr : list event) : list remote_operation :=
  omap remote_operation_of tr.

Definition fixed_order : list remote_operation :=
  [ ConnectBus; ExportObject; EnumerateObjects;
    UnregisterAdvertisement; RegisterAdvertisement; AwaitDisconnect ].

(** A reply [main] can iterate over: its first body element is a
    dictionary, and every value of that dictionary is a dictionary. *)
Definition is_dict (v : pyval) : Prop :=
  match v with PDict _ => True | _ => False end.

Definition usable_enumeration (reply : option Message) (objects : dict) : Prop :=
  managed_objects reply = inr objects ∧ Forall (λ entry, is_dict entry.2) objects.

(** Whether an object of the reply exposes the advertising manager. *)
Definition exposes_manager (entry : pykey * pyval) : bool :=
  match entry.2 with
  | PDict interfaces =>
      dict_contains (KStr Advertisement.LE_ADVERTISING_MANAGER_INTERFACE) interfaces
  | _ => false
  end.

(** The last path, in iteration order, that exposes the manager; the
    fallback when there is none. *)
Definition last_manager_path (objects : dict) : pykey :=
  from_option fst (KStr "/org/bluez/hci0") (last (filter exposes_manager objects)).

(** A path the [Message] constructor accepts. *)
Definition valid_object_path (p : pykey) : Prop :=
  assert_object_path_valid p = inr tt.

(** What the script prints for a reply to [RegisterAdvertisement]. *)
Definition registration_lines (reply : option Message) : list line :=
  match reply with
  | Some r =>
      match message_type r with
      | METHOD_RETURN => [Literal "Advertisement registered"]
      | ERROR => [ErrorLine (body r)]
      | _ => []
      end
  | None => []
  end.

(** The trace of a run of [main] that selected the adapter path [p] and
    went on to the end. *)
Definition requests_sent (p : pykey) : list event :=
  preamble ++ [ Call get_managed_objects_msg;
                Call (unregister_msg p (Advertisement.path Advertisement.new_default)) ].

Definition registration_reply (d : daemon) (p : pykey) : option Message :=
  d (requests_sent p) (register_msg p (Advertisement.path Advertisement.new_default)).

Definition complete_trace (d : daemon) (p : pykey) : list event :=
  requests_sent p
  ++ Call (register_msg p (Advertisement.path Advertisement.new_default))
  :: (Print <$> registration_lines (registration_reply d p))
  ++ [WaitForDisconnect].

(** The events of a complete run, one by one, for the adapter path [p] and
    the lines printed. *)
Definition full_sequence (p : pykey) (lines : list line) : list event :=
  [ Connect;
    Export "/org/bluez/advertisement/test1" Advertisement.new_default;
    RequestName "org.bluez.LEAdvertisement1";
    Call get_managed_objects_msg;
    Call (unregister_msg p "/org/bluez/advertisement/test1");
    Call (register_msg p "/org/bluez/advertisement/test1") ]
  ++ (Print <$> lines) ++ [WaitForDisconnect].

(** The trace of a run stopped by an exception after the enumeration:
    while reading the reply, or while building the next request. *)
Definition stopped_trace : list event :=
  preamble ++ [Call get_managed_objects_msg].

(** "Every error-typed reply is printed", for the run of [main] against [d]. *)
Definition prints_every_error (d : daemon) : Prop :=
  ∀ m r, (m, Some r) ∈ exchanges d (trace (main d)) →
         message_type r = ERROR →
         ErrorLine (body r) ∈ printed (trace (main d)).

End Spec.

(** ** Two daemons to run [main] against *)

Module Daemons.
Import Py DBus.

Definition reply_with (t : MessageType) (sig : string) (b : list pyval) : option Message :=
  Some {| destination := ":1.42"; path := KStr ""; interface := ""; member := "";
          signature := sig; body := b; message_type := t |}.

(** Two adapters with an advertising manager, after an object without. *)
Definition two_adapters : dict :=
  [ (KStr "/org/bluez",
     PDict [(KStr "org.bluez.AgentManager1", PDict [])]);
    (KStr "/org/bluez/hci0",
     PDict [(KStr "org.bluez.Adapter1",
             PDict [(KStr "Powered", PVariant "b" (PBool true))]);
            (KStr "org.bluez.LEAdvertisingManager1",
             PDict [(KStr "ActiveInstances", PVariant "y" (PInt 0))])]);
    (KStr "/org/bluez/hci1",
     PDict [(KStr "org.bluez.LEAdvertisingManager1",
             PDict [(KStr "ActiveInstances", PVariant "y" (PInt 1))])]) ].

Definition does_not_exist : list pyval := [PStr "Does Not Exist"].

(** A daemon with nothing registered yet: it lists its objects, refuses
    the unregistration and accepts the registration. *)
Definition fresh_bluez : daemon :=
  λ _ request,
    if decide (member request = "GetManagedObjects")
    then reply_with METHOD_RETURN "a{oa{sa{sv}}}" [PDict two_adapters]
    else if decide (member request = "UnregisterAdvertisement")
    then reply_with ERROR "s" does_not_exist
    else reply_with METHOD_RETURN "" [].

(** No BlueZ on the bus: every request is answered by an error. *)
Definition absent_bluez : daemon :=
  λ _ _, reply_with ERROR "s" [PStr "The name org.bluez was not provided by any .service files"].

End Daemons.

(** ** Further notions *)

Module Notions.
Import Py.

(** [isinstance(v, Variant)] *)
Definition is_variant (v : pyval) : bool :=
  match v with
  | PVariant _ _ => true
  | _ => false
  end.

(** A value on which the loop of [unpack_variants] finds nothing to do: it
    is not a [Variant]; if it is a list, none of its elements is a
    [Variant]; if it is a dictionary, each of its values is such a value. *)
Fixpoint settled (v : pyval) : Prop :=
  match v with
  | PVariant _ _ => False
  | PList xs => Forall (λ x, is_variant x = false) xs
  | PDict d =>
      (fix all (items : dict) : Prop :=
         match items with
         | [] => True
         | (_, x) :: rest => settled x ∧ all rest
         end) d
  | _ => True
  end.

(** The arguments handed to three of the setters in a run of operations,
    oldest first. *)
Definition supplied_uuids (ops : list Advertisement.operation) : list pyval :=
  omap (λ op, match op with Advertisement.SetServiceUUIDs u => Some u | _ => None end) ops.

Definition supplied_data (ops : list Advertisement.operation) : list dict :=
  omap (λ op, match op with Advertisement.SetManufacturerData d => Some d | _ => None end) ops.

Definition supplied_names (ops : list Advertisement.operation) : list string :=
  omap (λ op, match op with Advertisement.SetLocalName n => Some n | _ => None end) ops.

(** A daemon that holds a stale advertisement and has no room for a new
    one: it accepts the unregistration and refuses the registration. *)
Definition full_bluez : DBus.daemon :=
  λ _ request,
    if decide (DBus.member request = "GetManagedObjects")
    then Daemons.reply_with DBus.METHOD_RETURN "a{oa{sa{sv}}}" [PDict Daemons.two_adapters]
    else if decide (DBus.member request = "UnregisterAdvertisement")
    then Daemons.reply_with DBus.METHOD_RETURN "" []
    else Daemons.reply_with DBus.ERROR "s" [PStr "Maximum advertisements reached"].

(** A daemon whose enumeration lists an object with a string where its
    interfaces should be. *)
Definition odd_bluez : DBus.daemon :=
  λ _ _, Daemons.reply_with DBus.METHOD_RETURN "a{sv}"
           [PDict [ (KStr "/org/bluez/hci0",
                     PDict [(KStr "org.bluez.LEAdvertisingManager1", PDict [])]);
                    (KStr "/org/bluez/hci1", PStr "unexpected") ]].

(** A daemon whose only object with an advertising manager is listed
    under a key that is not an object path. *)
Definition misnamed_bluez : DBus.daemon :=
  λ _ _, Daemons.reply_with DBus.METHOD_RETURN "a{sa{sa{sv}}}"
           [PDict [ (KStr "not a path",
                     PDict [(KStr "org.bluez.LEAdvertisingManager1", PDict [])]) ]].

(** A reply whose only key is an integer. *)
Definition numbered_bluez : DBus.daemon :=
  λ _ _, Daemons.reply_with DBus.METHOD_RETURN "a{qa{sa{sv}}}"
           [PDict [ (KInt 5,
                     PDict [(KStr "org.bluez.LEAdvertisingManager1", PDict [])]) ]].

End Notions.

(** * Properties *)

(** ** [unpack_variants] *)

Module PyFacts.
Import Py Spec.

(** Induction on values, with the hypothesis available for every element
    of a list and every value of a dictionary. *)
Section pyval_induction.
Variable P : pyval → Prop.
Hypothesis HNone : P PNone.
Hypothesis HBool : ∀ b, P (PBool b).
Hypothesis HInt : ∀ n, P (PInt n).
Hypothesis HStr : ∀ s, P (PStr s).
Hypothesis HBytes : ∀ bs, P (PBytes bs).
Hypothesis HVariant : ∀ sig v, P v → P (PVariant sig v).
Hypothesis HList : ∀ xs, Forall P xs → P (PList xs).
Hypothesis HDict : ∀ d, Forall (λ entry, P entry.2) d → P (PDict d).

Fixpoint pyval_nested_ind (v : pyval) : P v :=
  match v with
  | PNone => HNone
  | PBool b => HBool b
  | PInt n => HInt n
  | PStr s => HStr s
  | PBytes bs => HBytes bs
  | PVariant sig x => HVariant sig x (pyval_nested_ind x)
  | PList xs =>
      HList xs
        ((fix go (l : list pyval) : Forall P l :=
            match l with
            | [] => Forall_nil_2 P
            | x :: r => Forall_cons_2 P x r (pyval_nested_ind x) (go r)
            end) xs)
  | PDict d =>
      HDict d
        ((fix go (l : dict) : Forall (λ entry, P entry.2) l :=
            match l with
            | [] => Forall_nil_2 _
            | (k, x) :: r =>
                Forall_cons_2 (λ entry, P entry.2) (k, x) r (pyval_nested_ind x) (go r)
            end) d)
  end.
End pyval_induction.

Lemma unpack_entry_dict (d : dict) :
  unpack_entry (PDict d) = PDict (unpack_variants d).
Proof. reflexivity. Qed.

Lemma unpack_entry_variant (sig : string) (v : pyval) :
  unpack_entry (PVariant sig v) =
  match v with PVariant _ _ => v | _ => unpack_entry v end.
Proof. by destruct v. Qed.

Lemma unpacked_value_variant (sig : string) (v : pyval) :
  unpacked_value (PVariant sig v) =
  match v with PVariant _ _ => v | _ => unpacked_value v end.
Proof. by destruct v. Qed.

Lemma distinct_keys_dict (d : dict) :
  distinct_keys (PDict d) ↔ NoDup d.*1 ∧ Forall (λ entry, distinct_keys entry.2) d.
Proof.
  simpl. apply and_iff_compat_l.
  induction d as [|[k x] d IH]; simpl.
  - split; [constructor | done].
  - rewrite Forall_cons, IH. done.
Qed.

(** Assignment to a dictionary and its keys. *)
Lemma dict_set_keys (k : pykey) (v : pyval) (d : dict) (k' : pykey) :
  k' ∈ (dict_set k v d).*1 ↔ k' = k ∨ k' ∈ d.*1.
Proof.
  induction d as [|[k0 v0] d IH]; simpl.
  - rewrite list_elem_of_singleton, elem_of_nil. tauto.
  - case_decide as Hk; simpl; rewrite !elem_of_cons; [subst; tauto|].
    rewrite IH. tauto.
Qed.

Lemma dict_set_fresh (k : pykey) (v : pyval) (d : dict) :
  k ∉ d.*1 → dict_set k v d = d ++ [(k, v)].
Proof.
  induction d as [|[k0 v0] d IH]; simpl; intros Hk; [done|].
  apply not_elem_of_cons in Hk as [Hne Hk].
  case_decide; [congruence|]. by rewrite IH.
Qed.

Lemma unpack_loop_keys (items unpacked : dict) (k : pykey) :
  k ∈ (unpack_loop items unpacked).*1 ↔ k ∈ unpacked.*1 ∨ k ∈ items.*1.
Proof.
  revert unpacked. induction items as [|[k0 v0] items IH]; intros unpacked; simpl.
  - rewrite elem_of_nil. tauto.
  - rewrite IH, dict_set_keys, elem_of_cons. tauto.
Qed.

(** Membership of a key is not affected by unpacking, whatever the keys. *)
Lemma dict_contains_unpack_variants (k : pykey) (d : dict) :
  dict_contains k (unpack_variants d) = dict_contains k d.
Proof.
  unfold dict_contains, unpack_variants. apply bool_decide_ext.
  rewrite unpack_loop_keys. simpl. rewrite elem_of_nil. tauto.
Qed.

Lemma unpack_loop_distinct (items unpacked : dict) :
  NoDup (unpacked ++ items).*1 →
  unpack_loop items unpacked =
  unpacked ++ map (λ '(k, x), (k, unpack_entry x)) items.
Proof.
  revert unpacked. induction items as [|[k v] items IH]; intros unpacked Hnd; simpl.
  - by rewrite app_nil_r.
  - assert (k ∉ unpacked.*1) as Hfresh.
    { rewrite fmap_app in Hnd. apply NoDup_app in Hnd as (_ & Hd & _).
      intros Hin. apply (Hd _ Hin). simpl. left. }
    rewrite dict_set_fresh by done.
    rewrite IH.
    + by rewrite <- app_assoc.
    + rewrite <- app_assoc, fmap_app. rewrite fmap_app in Hnd. exact Hnd.
Qed.

Lemma unpack_variants_distinct (d : dict) :
  NoDup d.*1 → unpack_variants d = map (λ '(k, x), (k, unpack_entry x)) d.
Proof. intros Hnd. unfold unpack_variants. by rewrite unpack_loop_distinct. Qed.

Lemma unpack_entry_unpacked_value (v : pyval) :
  distinct_keys v → unpack_entry v = unpacked_value v.
Proof.
  induction v as [| | | | |sig v IH|xs _|d IH] using pyval_nested_ind;
    intros Hd; try reflexivity.
  - rewrite unpack_entry_variant, unpacked_value_variant.
    destruct v; try reflexivity; apply IH, Hd.
  - apply distinct_keys_dict in Hd as [Hnd Hall].
    rewrite unpack_entry_dict, unpack_variants_distinct by done.
    change (unpacked_value (PDict d)) with (PDict (unpacked_dict d)).
    f_equal. unfold unpacked_dict. clear Hnd.
    induction d as [|[k x] d IHd]; [done|].
    apply Forall_cons in IH as [IHx IH]. apply Forall_cons in Hall as [Hx Hall].
    simpl in *. rewrite IHx by done. f_equal. by apply IHd.
Qed.

Lemma dict_get_map_distinct (f : pyval → pyval) (d : dict) (k : pykey) (v : pyval) :
  NoDup d.*1 → (k, v) ∈ d →
  dict_get k (map (λ '(k, x), (k, f x)) d) = Some (f v).
Proof.
  induction d as [|[k0 v0] d IH]; simpl; intros Hnd Hin.
  - by apply elem_of_nil in Hin.
  - apply NoDup_cons in Hnd as [Hk0 Hnd].
    apply elem_of_cons in Hin as [Heq|Hin].
    + injection Heq as -> ->. by rewrite decide_True.
    + rewrite decide_False; [by apply IH|].
      intros ->. apply Hk0. apply list_elem_of_fmap. by exists (k, v).
Qed.

End PyFacts.

Module UnpackVariants.
Import Py Spec PyFacts.

(** A dictionary as a D-Bus reply carries them: [Variant]s at top level and
    in lists, a nested dictionary, a dictionary inside a list, and a
    [Variant] whose payload is a [Variant]. *)
Definition sample : dict :=
  [ (KStr "Name", PVariant "s" (PStr "hci0"));
    (KStr "Powered", PBool true);
    (KStr "Nested", PVariant "a{sv}" (PDict [(KStr "Level", PVariant "q" (PInt 2))]));
    (KStr "Plain", PDict [(KStr "Inner", PVariant "s" (PStr "x"))]);
    (KStr "UUIDs", PList [ PVariant "s" (PStr "180f");
                           PStr "180a";
                           PDict [(KStr "Deep", PVariant "s" (PStr "kept"))];
                           PVariant "v" (PVariant "s" (PStr "wrapped")) ]) ].

(** C9. For every dictionary (its keys, and those of the dictionaries
    nested in its values, pairwise distinct as in any Python dictionary),
    [unpack_variants] returns a dictionary with exactly the same keys in the
    same order, in which the value under each key is the input value with a
    [Variant] replaced by its payload, a dictionary (the value or its
    payload) unpacked recursively, and a list (the value or its payload)
    with its top-level [Variant] elements replaced by their payloads;
    inside a list, dictionaries stay as they are and a payload is not
    unpacked further. *)
Theorem unpack_variants_by_value (dictionary : dict) :
  distinct_keys (PDict dictionary) →
  (unpack_variants dictionary).*1 = dictionary.*1 ∧
  unpack_variants dictionary = unpacked_dict dictionary ∧
  (∀ k v, (k, v) ∈ dictionary →
          dict_get k (unpack_variants dictionary) = Some (unpacked_value v)) ∧
  (∀ k xs, (k, PList xs) ∈ dictionary →
           dict_get k (unpack_variants dictionary) = Some (PList (map variant_value xs))) ∧
  (∀ d, variant_value (PDict d) = PDict d) ∧
  (∀ sig payload, variant_value (PVariant sig payload) = payload).
Proof.
  intros Hd.
  assert (unpack_variants dictionary = unpacked_dict dictionary) as Heq.
  { pose proof (unpack_entry_unpacked_value (PDict dictionary) Hd) as H.
    rewrite unpack_entry_dict in H. by injection H. }
  apply distinct_keys_dict in Hd as [Hnd _].
  assert (∀ k v, (k, v) ∈ dictionary →
                 dict_get k (unpack_variants dictionary) = Some (unpacked_value v)) as Hget.
  { intros k v Hin. rewrite Heq. by apply dict_get_map_distinct. }
  repeat split; try done.
  - rewrite Heq. unfold unpacked_dict. clear.
    induction dictionary as [|[k x] d IH]; [done|]. simpl. f_equal. exact IH.
  - intros k xs Hin. by rewrite (Hget _ _ Hin).
Qed.

Lemma unpack_variants_by_value_witness :
  distinct_keys (PDict sample) ∧
  unpack_variants sample =
  [ (KStr "Name", PStr "hci0");
    (KStr "Powered", PBool true);
    (KStr "Nested", PDict [(KStr "Level", PInt 2)]);
    (KStr "Plain", PDict [(KStr "Inner", PStr "x")]);
    (KStr "UUIDs", PList [ PStr "180f";
                           PStr "180a";
                           PDict [(KStr "Deep", PVariant "s" (PStr "kept"))];
                           PVariant "s" (PStr "wrapped") ]) ].
Proof.
  assert (distinct_keys (PDict sample)) as Hd.
  { simpl. repeat split; apply (bool_decide_unpack _); vm_compute; exact I. }
  split; [exact Hd|].
  destruct (unpack_variants_by_value sample Hd) as (_ & Heq & _).
  rewrite Heq. reflexivity.
Defined.

End UnpackVariants.

(** ** The advertisement object *)

Module AdvertisementFacts.
Import Py Advertisement.

(** C2. Whatever the four constructor arguments, each getter of the object
    [__init__] builds returns the corresponding argument, before any setter
    has run: [Type] the advertising type, [ServiceUUIDs] the very list
    object that was passed (so a reader sees its elements), [ManufacturerData]
    the dictionary, [LocalName] the name. *)
Theorem getters_return_constructor_arguments
    (advertising_type : string) (service_uuids_arg : loc)
    (manufacturer_data_arg : dict) (local_name_arg : string) (h : heap) :
  let self := __init__ advertising_type service_uuids_arg manufacturer_data_arg local_name_arg in
  advertisement_type self = advertising_type ∧
  service_uuids self = service_uuids_arg ∧
  service_uuids_value h self = h !! service_uuids_arg ∧
  manufacturer_data self = manufacturer_data_arg ∧
  local_name self = local_name_arg.
Proof. done. Qed.

(** Reading the list of service identifiers after [add_service_uuid]. *)
Lemma service_uuids_after_add (uuid : pyval) (self : BLEAdvertisement) (h : heap) :
  let st := add_service_uuid uuid self h in
  service_uuids_value st.2 st.1 = (λ xs, xs ++ [uuid]) <$> service_uuids_value h self.
Proof. unfold service_uuids_value, add_service_uuid. simpl. by rewrite lookup_alter_eq. Qed.

(** C3, as stated, fails for [ServiceUUIDs]: on the default object, setting
    the property to the list [["1234"]] and reading it back gives the old
    element followed by the new value, not the new value. *)
Lemma service_uuids_set_then_get_differs :
  let v := [PStr "1234"] in
  let st := add_service_uuid (PList v) new_default heap_at_import in
  service_uuids_value st.2 st.1 = Some [PStr "ABCD"; PList v] ∧
  service_uuids_value st.2 st.1 ≠ Some v.
Proof.
  cbv zeta. rewrite service_uuids_after_add.
  assert (service_uuids_value heap_at_import new_default = Some [PStr "ABCD"]) as ->
    by apply lookup_singleton_eq.
  split; [reflexivity | discriminate].
Qed.

(** C3, amended. From every state of the object, the setters of [Type],
    [ManufacturerData] and [LocalName] store their argument, which the
    getter then returns; the setter of [ServiceUUIDs] appends its argument
    to the list object, so that the getter then shows the previous elements
    followed by the argument. *)
Theorem setters_then_getters (self : BLEAdvertisement) (h : heap)
    (ad_type : string) (uuid : pyval) (data : dict) (name : string) :
  advertisement_type (set_advertisement_type ad_type self h).1 = ad_type ∧
  manufacturer_data (add_manufacturer_data data self h).1 = data ∧
  local_name (add_local_name name self h).1 = name ∧
  (let st := add_service_uuid uuid self h in
   service_uuids st.1 = service_uuids self ∧
   ∀ uuids, service_uuids_value h self = Some uuids →
            service_uuids_value st.2 st.1 = Some (uuids ++ [uuid])).
Proof.
  repeat split. intros uuids Hl.
  pose proof (service_uuids_after_add uuid self h) as H. cbv zeta in H.
  by rewrite H, Hl.
Qed.

Lemma setters_then_getters_witness :
  service_uuids_value heap_at_import new_default = Some [PStr "ABCD"] ∧
  (let st := add_service_uuid (PStr "1234") new_default heap_at_import in
   service_uuids_value st.2 st.1 = Some [PStr "ABCD"; PStr "1234"]).
Proof.
  assert (service_uuids_value heap_at_import new_default = Some [PStr "ABCD"]) as Hl
    by apply lookup_singleton_eq.
  split; [exact Hl|].
  destruct (setters_then_getters new_default heap_at_import
              "peripheral" (PStr "1234") [] "n") as (_ & _ & _ & _ & Hu).
  exact (Hu _ Hl).
Defined.

(** Operations and the attributes they leave alone. *)
Lemma apply_operation_path (op : operation) (st : BLEAdvertisement * heap) :
  path (apply_operation op st).1 = path st.1 ∧
  service_name (apply_operation op st).1 = service_name st.1.
Proof. by destruct op. Qed.

Lemma apply_operations_path (ops : list operation) (st : BLEAdvertisement * heap) :
  path (apply_operations ops st).1 = path st.1 ∧
  service_name (apply_operations ops st).1 = service_name st.1.
Proof.
  revert st. induction ops as [|op ops IH]; intros st; [done|].
  simpl. destruct (IH (apply_operation op st)) as [-> ->].
  apply apply_operation_path.
Qed.

Lemma apply_operations_type (ops : list operation) (st : BLEAdvertisement * heap) :
  last (supplied_types (advertisement_type st.1) ops) =
  Some (advertisement_type (apply_operations ops st).1).
Proof.
  revert st. induction ops as [|op ops IH]; intros st; [done|].
  specialize (IH (apply_operation op st)). simpl apply_operations. rewrite <- IH.
  unfold supplied_types. destruct op; try done.
Qed.

(** C4, as stated, fails: the setter stores any string. *)
Lemma advertisement_type_not_enumerated :
  let self := (apply_operations [SetType "beacon"] (new_default, heap_at_import)).1 in
  advertisement_type self = "beacon" ∧
  ¬ (advertisement_type self = "broadcast" ∨ advertisement_type self = "peripheral").
Proof. split; [reflexivity|]. intros [H|H]; discriminate H. Qed.

(** C4, amended. In every state reached from construction by the public
    operations, the [Type] getter returns the value supplied last (the
    constructor argument, or the argument of the latest call of the [Type]
    setter); it is "broadcast" or "peripheral" whenever every supplied value
    is. *)
Theorem advertisement_type_is_last_supplied
    (advertising_type : string) (service_uuids_arg : loc)
    (manufacturer_data_arg : dict) (local_name_arg : string) (h : heap)
    (ops : list operation) :
  let self :=
    (apply_operations ops
       (__init__ advertising_type service_uuids_arg manufacturer_data_arg local_name_arg, h)).1 in
  last (supplied_types advertising_type ops) = Some (advertisement_type self) ∧
  (Forall (λ t, t = "broadcast" ∨ t = "peripheral") (supplied_types advertising_type ops) →
   advertisement_type self = "broadcast" ∨ advertisement_type self = "peripheral").
Proof.
  intros self.
  pose proof (apply_operations_type ops
    (__init__ advertising_type service_uuids_arg manufacturer_data_arg local_name_arg, h))
    as Hlast.
  change (last (supplied_types advertising_type ops) = Some (advertisement_type self))
    in Hlast.
  split; [exact Hlast|]. intros Hall.
  apply last_Some_elem_of in Hlast.
  rewrite Forall_forall in Hall. by apply Hall.
Qed.

Lemma advertisement_type_is_last_supplied_witness :
  let ops := [SetLocalName "kitchen"; SetType "peripheral"; SetServiceUUIDs (PStr "1234")] in
  let self := (apply_operations ops (new_default, heap_at_import)).1 in
  Forall (λ t, t = "broadcast" ∨ t = "peripheral")
    (supplied_types default_advertising_type ops) ∧
  (advertisement_type self = "broadcast" ∨ advertisement_type self = "peripheral").
Proof.
  cbv zeta.
  assert (Forall (λ t, t = "broadcast" ∨ t = "peripheral")
            (supplied_types default_advertising_type
               [SetLocalName "kitchen"; SetType "peripheral"; SetServiceUUIDs (PStr "1234")]))
    as Hall.
  { unfold supplied_types. simpl.
    repeat first [apply Forall_nil_2 | apply Forall_cons_2; [first [by left | by right]|]]. }
  split; [exact Hall|].
  exact (proj2 (advertisement_type_is_last_supplied
                  default_advertising_type default_service_uuids default_manufacturer_data
                  default_local_name heap_at_import _) Hall).
Defined.

(** C7, evaluated. Two objects built with the default arguments hold the
    same list object: [add_service_uuid] on the first changes what the
    [ServiceUUIDs] getter of the second shows. *)
Theorem default_service_uuids_shared :
  let a := new_default in
  let b := new_default in
  let st := add_service_uuid (PStr "1234") a heap_at_import in
  service_uuids_value heap_at_import b = Some [PStr "ABCD"] ∧
  service_uuids_value st.2 b = Some [PStr "ABCD"; PStr "1234"].
Proof.
  cbv zeta.
  assert (service_uuids_value heap_at_import new_default = Some [PStr "ABCD"]) as Hl
    by apply lookup_singleton_eq.
  split; [exact Hl|].
  pose proof (service_uuids_after_add (PStr "1234") new_default heap_at_import) as H.
  cbv zeta in H. simpl in H. rewrite Hl in H. exact H.
Qed.

(** The other three setters rebind an attribute of their own object and
    leave the heap alone. *)
Lemma rebinding_setters_keep_heap (self : BLEAdvertisement) (h : heap)
    (ad_type : string) (data : dict) (name : string) :
  (set_advertisement_type ad_type self h).2 = h ∧
  (add_manufacturer_data data self h).2 = h ∧
  (add_local_name name self h).2 = h.
Proof. done. Qed.

End AdvertisementFacts.

(** ** The exported interface *)

Module InterfaceFacts.
Import Interface.

(** C6. The interface of [BLEAdvertisement] carries exactly four
    properties: [Type] of signature [s] (string), [ServiceUUIDs] of
    signature [as] (array of strings), [ManufacturerData] of signature
    [a{qv}] (dictionary from 16-bit unsigned integers to variants) and
    [LocalName] of signature [s] (string); each of the four has a setter. *)
Theorem interface_has_four_properties :
  interface_properties BLEAdvertisement_members =
    [ ("Type", "s"); ("ServiceUUIDs", "as");
      ("ManufacturerData", "a{qv}"); ("LocalName", "s") ] ∧
  (λ p, single_type p.2) <$> interface_properties BLEAdvertisement_members =
    [ Some TString; Some (TArray TString);
      Some (TDictionary TUInt16 TVariant); Some TString ] ∧
  length (interface_properties BLEAdvertisement_members) = 4 ∧
  property_setters BLEAdvertisement_members =
    [ "advertisement_type"; "service_uuids"; "manufacturer_data"; "local_name" ].
Proof. repeat split. Qed.

End InterfaceFacts.

(** ** The main routine *)

Module MainFacts.
Import Py DBus Main Spec PyFacts.

Abbreviation fallback_path := (KStr "/org/bluez/hci0").

(** The run of [main], case by case. *)
Lemma main_run (d : daemon) :
  run (main d) =
  match managed_objects (enumeration_reply d) with
  | inl e => (inl e, stopped_trace)
  | inr objects =>
      match select_adapter objects fallback_path with
      | inl e => (inl e, stopped_trace)
      | inr p =>
          match assert_object_path_valid p with
          | inl e => (inl e, stopped_trace)
          | inr _ => (inr tt, complete_trace d p)
          end
      end
  end.
Proof.
  unfold run, main, enumeration_reply, mbind, M_bind, bind, call, emit, lift, raise, ret.
  simpl.
  destruct (managed_objects _) as [e|objects]; [done|].
  destruct (select_adapter _ _) as [e|p]; [done|].
  unfold Message_init. simpl.
  destruct (assert_object_path_valid p) as [e|[]]; [done|]. simpl.
  unfold report, emit, ret, complete_trace, registration_reply, requests_sent.
  simpl.
  destruct (d _ (register_msg p _)) as [r|]; [|done].
  simpl. by destruct (message_type r).
Qed.

Lemma registration_lines_cases (reply : option Message) :
  registration_lines reply = [] ∨ ∃ l, registration_lines reply = [l].
Proof.
  destruct reply as [r|]; simpl; [|by left].
  destruct (message_type r); eauto.
Qed.

(** The two shapes of a run of [main]: stopped by an exception right after
    the enumeration, or complete. *)
Lemma main_run_shape (d : daemon) :
  (∃ e, run (main d) = (inl e, stopped_trace)) ∨
  (∃ p, run (main d) = (inr tt, complete_trace d p)).
Proof.
  rewrite main_run.
  destruct (managed_objects _) as [e|objects]; [left; eauto|].
  destruct (select_adapter _ _) as [e|p]; [left; eauto|].
  destruct (assert_object_path_valid p) as [e|[]]; [left; eauto | right; eauto].
Qed.

(** Against a bus without BlueZ the enumeration reply is an error whose
    body is a string: line 135 raises, and nothing is sent after the
    enumeration. *)
Example main_without_bluez :
  run (main Daemons.absent_bluez) = (inl AttributeError, stopped_trace).
Proof. reflexivity. Qed.

(** The loop of [main] picks the last object exposing the manager. *)
Lemma last_manager_path_cons (entry : pykey * pyval) (objects : dict) (p0 : pykey) :
  from_option fst p0 (last (filter exposes_manager (entry :: objects))) =
  from_option fst (if exposes_manager entry then entry.1 else p0)
    (last (filter exposes_manager objects)).
Proof.
  rewrite filter_cons. destruct (exposes_manager entry) eqn:He.
  - rewrite decide_True by done. rewrite last_cons.
    by destruct (last _).
  - rewrite decide_False by (by intros []). done.
Qed.

Lemma select_adapter_last (objects : dict) (p0 : pykey) :
  Forall (λ entry, is_dict entry.2) objects →
  select_adapter objects p0 =
  inr (from_option fst p0 (last (filter exposes_manager objects))).
Proof.
  intros Hall. revert p0.
  induction Hall as [|[path interfaces] objects Hd _ IH]; intros p0; [done|].
  rewrite last_manager_path_cons.
  destruct interfaces; try done. simpl.
  rewrite dict_contains_unpack_variants. apply IH.
Qed.

Lemma main_run_usable (d : daemon) (objects : dict) :
  usable_enumeration (enumeration_reply d) objects →
  run (main d) =
  match assert_object_path_valid (last_manager_path objects) with
  | inl e => (inl e, stopped_trace)
  | inr _ => (inr tt, complete_trace d (last_manager_path objects))
  end.
Proof.
  intros [Hobj Hall]. rewrite main_run, Hobj.
  by rewrite select_adapter_last.
Qed.

Lemma main_run_valid (d : daemon) (objects : dict) :
  usable_enumeration (enumeration_reply d) objects →
  valid_object_path (last_manager_path objects) →
  run (main d) = (inr tt, complete_trace d (last_manager_path objects)).
Proof.
  intros Hu Hv. rewrite (main_run_usable d objects Hu).
  unfold valid_object_path in Hv. by rewrite Hv.
Qed.

Lemma complete_trace_full_sequence (d : daemon) (p : pykey) :
  complete_trace d p = full_sequence p (registration_lines (registration_reply d p)).
Proof. reflexivity. Qed.

Lemma stopped_trace_prefix (p : pykey) (lines : list line) :
  stopped_trace `prefix_of` full_sequence p lines.
Proof.
  by exists (Call (unregister_msg p "/org/bluez/advertisement/test1")
             :: Call (register_msg p "/org/bluez/advertisement/test1")
             :: (Print <$> lines) ++ [WaitForDisconnect]).
Qed.

Lemma complete_trace_cases (d : daemon) (p : pykey) :
  let sent := requests_sent p
              ++ [Call (register_msg p (Advertisement.path Advertisement.new_default))] in
  (registration_lines (registration_reply d p) = [] ∧
   complete_trace d p = sent ++ [WaitForDisconnect]) ∨
  (∃ l, registration_lines (registration_reply d p) = [l] ∧
        complete_trace d p = sent ++ [Print l; WaitForDisconnect]).
Proof.
  unfold complete_trace.
  destruct (registration_lines_cases (registration_reply d p)) as [->|[l ->]];
    [left | right; exists l]; split; try done; by rewrite <- app_assoc.
Qed.

Lemma calls_complete_trace (d : daemon) (p : pykey) :
  calls (complete_trace d p) =
  [ get_managed_objects_msg;
    unregister_msg p (Advertisement.path Advertisement.new_default);
    register_msg p (Advertisement.path Advertisement.new_default) ].
Proof. destruct (complete_trace_cases d p) as [[_ ->]|[l [_ ->]]]; reflexivity. Qed.

Lemma printed_complete_trace (d : daemon) (p : pykey) :
  printed (complete_trace d p) = registration_lines (registration_reply d p).
Proof. destruct (complete_trace_cases d p) as [[-> ->]|[l [-> ->]]]; reflexivity. Qed.

Lemma exchanges_complete_trace (d : daemon) (p : pykey) :
  exchanges d (complete_trace d p) =
  [ (get_managed_objects_msg, enumeration_reply d);
    (unregister_msg p (Advertisement.path Advertisement.new_default),
     d stopped_trace (unregister_msg p (Advertisement.path Advertisement.new_default)));
    (register_msg p (Advertisement.path Advertisement.new_default),
     registration_reply d p) ].
Proof. destruct (complete_trace_cases d p) as [[_ ->]|[l [_ ->]]]; reflexivity. Qed.

(** C8. When the reply to [GetManagedObjects] carries a dictionary of
    objects whose values are dictionaries, the adapter path is the last
    path, in the iteration order of the reply, whose interfaces include
    [org.bluez.LEAdvertisingManager1], and "/org/bluez/hci0" when no object
    has that interface.  Every [UnregisterAdvertisement] and
    [RegisterAdvertisement] request [main] sends is addressed to that one
    path; when the path is an object path, the requests sent are the
    enumeration followed by the unregistration and the registration at that
    path, and when it is not, building the unregistration request raises
    and only the enumeration has been sent. *)
Theorem adapter_path_selection (d : daemon) (objects : dict) :
  usable_enumeration (enumeration_reply d) objects →
  let p := last_manager_path objects in
  (∀ m, m ∈ calls (trace (main d)) →
        member m = "UnregisterAdvertisement" ∨ member m = "RegisterAdvertisement" →
        path m = p) ∧
  (valid_object_path p →
   calls (trace (main d)) =
     [ get_managed_objects_msg;
       unregister_msg p "/org/bluez/advertisement/test1";
       register_msg p "/org/bluez/advertisement/test1" ]) ∧
  (∀ e, assert_object_path_valid p = inl e →
        outcome (main d) = inl e ∧
        calls (trace (main d)) = [get_managed_objects_msg]) ∧
  (∀ before entry after,
     objects = before ++ entry :: after →
     exposes_manager entry →
     Forall (λ e, ¬ exposes_manager e) after →
     p = entry.1) ∧
  (Forall (λ e, ¬ exposes_manager e) objects → p = KStr "/org/bluez/hci0").
Proof.
  intros Hu p. unfold trace, outcome. rewrite (main_run_usable d objects Hu).
  fold p. split; [|split; [|split; [|split]]].
  - intros m Hin Hm. destruct (assert_object_path_valid p) as [e|[]]; cbn [snd] in Hin.
    + apply list_elem_of_singleton in Hin as ->.
      destruct Hm as [Hm|Hm]; discriminate Hm.
    + rewrite calls_complete_trace in Hin.
      repeat (apply elem_of_cons in Hin as [->|Hin]); try done.
      * destruct Hm as [Hm|Hm]; discriminate Hm.
      * by apply elem_of_nil in Hin.
  - intros Hv. unfold valid_object_path in Hv. rewrite Hv. cbn [snd].
    by rewrite calls_complete_trace.
  - intros e He. by rewrite He.
  - intros before entry after -> He Hafter. unfold p, last_manager_path.
    rewrite filter_app. rewrite filter_cons_True by done.
    assert (filter exposes_manager after = []) as ->.
    { clear -Hafter. induction Hafter as [|e l Hn _ IH]; [done|].
      by rewrite filter_cons_False. }
    by rewrite last_snoc.
  - intros Hnone. unfold p, last_manager_path.
    assert (filter exposes_manager objects = []) as ->; [|done].
    clear -Hnone. induction Hnone as [|e l Hn _ IH]; [done|].
    by rewrite filter_cons_False.
Qed.

Lemma adapter_path_selection_witness :
  usable_enumeration (enumeration_reply Daemons.fresh_bluez) Daemons.two_adapters ∧
  valid_object_path (last_manager_path Daemons.two_adapters) ∧
  calls (trace (main Daemons.fresh_bluez)) =
    [ get_managed_objects_msg;
      unregister_msg (KStr "/org/bluez/hci1") "/org/bluez/advertisement/test1";
      register_msg (KStr "/org/bluez/hci1") "/org/bluez/advertisement/test1" ].
Proof.
  assert (usable_enumeration (enumeration_reply Daemons.fresh_bluez) Daemons.two_adapters)
    as Hu.
  { split; [reflexivity|]. repeat constructor. }
  assert (valid_object_path (last_manager_path Daemons.two_adapters)) as Hv
    by reflexivity.
  split; [exact Hu|]. split; [exact Hv|].
  exact (proj1 (proj2 (adapter_path_selection Daemons.fresh_bluez Daemons.two_adapters Hu))
           Hv).
Defined.

(** Case analysis on a position of a trace that is known event by event. *)
Ltac by_position i H :=
  repeat first [discriminate H | destruct i as [|i]; simpl in H].

(** C1. Every run of [main] is an initial segment of one sequence of
    events: connect to the bus, export the object at its path, (request the
    bus name, line 124,) enumerate the managed objects, unregister the
    advertisement at the object's path, register it at that same path, print
    at most one line, wait for disconnection.  So the six operations come
    in the fixed order, each at most once, with nothing else sent in
    between.  When the enumeration reply carries a dictionary of
    dictionaries and the selected adapter path is an object path, [main]
    returns and its trace is the whole sequence.  A [RegisterAdvertisement]
    request is always preceded by an [UnregisterAdvertisement] request and
    never followed by one. *)
Theorem main_fixed_order (d : daemon) :
  let tr := trace (main d) in
  (∃ p lines, (length lines ≤ 1)%nat ∧ tr `prefix_of` full_sequence p lines) ∧
  remote_operations tr `prefix_of` fixed_order ∧
  (∀ objects, usable_enumeration (enumeration_reply d) objects →
     valid_object_path (last_manager_path objects) →
     outcome (main d) = inr tt ∧
     tr = full_sequence (last_manager_path objects)
            (registration_lines
               (registration_reply d (last_manager_path objects))) ∧
     remote_operations tr = fixed_order) ∧
  (∀ j m, tr !! j = Some (Call m) → member m = "RegisterAdvertisement" →
     (∃ i m', i < j ∧ tr !! i = Some (Call m') ∧ member m' = "UnregisterAdvertisement") ∧
     (∀ i m', tr !! i = Some (Call m') → member m' = "UnregisterAdvertisement" → i < j)).
Proof.
  cbv zeta. unfold trace, outcome.
  assert (∀ p, remote_operations (complete_trace d p) = fixed_order) as Hops
    by (intros p; destruct (complete_trace_cases d p) as [[_ ->]|[l [_ ->]]]; reflexivity).
  split; [|split; [|split]].
  - destruct (main_run_shape d) as [[e ->]|[p ->]]; cbn [snd].
    + exists (KStr "/org/bluez/hci0"), []. split; [simpl; lia|].
      apply stopped_trace_prefix.
    + exists p, (registration_lines (registration_reply d p)). split.
      * destruct (registration_lines_cases (registration_reply d p)) as [->|[l ->]];
          simpl; lia.
      * by rewrite complete_trace_full_sequence.
  - destruct (main_run_shape d) as [[e ->]|[p ->]]; cbn [snd].
    + by exists [UnregisterAdvertisement; RegisterAdvertisement; AwaitDisconnect].
    + by rewrite Hops.
  - intros objects Hu Hv. rewrite (main_run_valid d objects Hu Hv). cbn [fst snd].
    split; [done|]. split; [apply complete_trace_full_sequence | apply Hops].
  - destruct (main_run_shape d) as [[e ->]|[p ->]]; cbn [snd].
    + intros j m Hj Hm. exfalso. by_position j Hj.
      injection Hj as <-. discriminate Hm.
    + intros j m Hj Hm.
      assert (∀ i m', complete_trace d p !! i = Some (Call m') →
                      member m' = "UnregisterAdvertisement" → i = 4) as Hunreg.
      { intros i m' Hi Hm'.
        destruct (complete_trace_cases d p) as [[_ Htr]|[l [_ Htr]]];
          rewrite Htr in Hi; by_position i Hi; try done;
          injection Hi as <-; discriminate Hm'. }
      assert (j = 5) as ->.
      { destruct (complete_trace_cases d p) as [[_ Htr]|[l [_ Htr]]];
          rewrite Htr in Hj; by_position j Hj; try done;
          injection Hj as <-; discriminate Hm. }
      split.
      * exists 4, (unregister_msg p (Advertisement.path Advertisement.new_default)).
        split; [lia|]. split; [|done].
        by destruct (complete_trace_cases d p) as [[_ ->]|[l [_ ->]]].
      * intros i m' Hi Hm'. rewrite (Hunreg i m' Hi Hm'). lia.
Qed.

Lemma main_fixed_order_witness :
  usable_enumeration (enumeration_reply Daemons.fresh_bluez) Daemons.two_adapters ∧
  valid_object_path (last_manager_path Daemons.two_adapters) ∧
  outcome (main Daemons.fresh_bluez) = inr tt ∧
  trace (main Daemons.fresh_bluez) =
    full_sequence (KStr "/org/bluez/hci1") [Literal "Advertisement registered"] ∧
  remote_operations (trace (main Daemons.fresh_bluez)) = fixed_order.
Proof.
  assert (usable_enumeration (enumeration_reply Daemons.fresh_bluez) Daemons.two_adapters)
    as Hu.
  { split; [reflexivity|]. repeat constructor. }
  assert (valid_object_path (last_manager_path Daemons.two_adapters)) as Hv
    by reflexivity.
  split; [exact Hu|]. split; [exact Hv|].
  exact (proj1 (proj2 (proj2 (main_fixed_order Daemons.fresh_bluez)))
           Daemons.two_adapters Hu Hv).
Defined.

(** C5, as stated, fails: the daemon [fresh_bluez] answers
    [UnregisterAdvertisement] with an error, and the script prints only the
    success of the registration. *)
Lemma unregister_error_is_not_printed :
  printed (trace (main Daemons.fresh_bluez)) = [Literal "Advertisement registered"] ∧
  ¬ prints_every_error Daemons.fresh_bluez.
Proof.
  assert (printed (trace (main Daemons.fresh_bluez)) = [Literal "Advertisement registered"])
    as Hp by reflexivity.
  split; [exact Hp|].
  intros Hall.
  pose (r := {| destination := ":1.42"; path := KStr ""; interface := ""; member := "";
                signature := "s"; body := Daemons.does_not_exist;
                message_type := ERROR |}).
  specialize (Hall (unregister_msg (KStr "/org/bluez/hci1") "/org/bluez/advertisement/test1") r).
  rewrite Hp in Hall.
  assert (ErrorLine (body r) ∈ [Literal "Advertisement registered"]) as Hin.
  { apply Hall; [|reflexivity].
    assert (exchanges Daemons.fresh_bluez (trace (main Daemons.fresh_bluez)) !! 1 =
            Some (unregister_msg (KStr "/org/bluez/hci1") "/org/bluez/advertisement/test1",
                  Some r)) as Hx by reflexivity.
    by apply list_elem_of_lookup_2 in Hx. }
  apply list_elem_of_singleton in Hin. discriminate Hin.
Qed.

(** C5, amended. What the script prints is decided by the reply to
    [RegisterAdvertisement] alone: "Advertisement registered" for a method
    return, the error line with the reply body for an error, nothing
    otherwise; the replies to the other requests are never printed.  No
    request is sent twice, and after a line is printed the script does
    nothing but wait for disconnection. *)
Theorem only_registration_reply_is_reported (d : daemon) :
  let tr := trace (main d) in
  printed tr =
    flat_map (λ x, if decide (member x.1 = "RegisterAdvertisement")
                   then registration_lines x.2 else [])
             (exchanges d tr) ∧
  NoDup (member <$> calls tr) ∧
  (∀ i l, tr !! i = Some (Print l) → drop (S i) tr = [WaitForDisconnect]).
Proof.
  cbv zeta. unfold trace.
  destruct (main_run_shape d) as [[e Hrun]|[p Hrun]]; rewrite Hrun; simpl snd.
  - split; [reflexivity|]. split.
    + apply (bool_decide_unpack _). by vm_compute.
    + intros i l Hi. by_position i Hi.
  - split; [|split].
    + rewrite printed_complete_trace, exchanges_complete_trace. simpl.
      by rewrite app_nil_r.
    + rewrite calls_complete_trace. apply (bool_decide_unpack _). by vm_compute.
    + intros i l Hi.
      destruct (complete_trace_cases d p) as [[_ Htr]|[l' [_ Htr]]];
        rewrite Htr in Hi |- *; by_position i Hi; done.
Qed.

(** C10. Whatever the constructor arguments, the object has path
    "/org/bluez/advertisement/test1" and interface name
    "org.bluez.LEAdvertisement1"; no run of setters and [Release] changes
    either.  Every run of [main] exports the object at that path, and in no
    run is anything exported at another path or an unregistration or
    registration sent whose first argument is another path.  When the
    enumeration reply carries a dictionary of dictionaries and the selected
    adapter path is an object path, [main] sends the unregistration with
    that path as its only argument and the registration with that path as
    its first argument. *)
Theorem path_and_interface_name_fixed
    (advertising_type : string) (service_uuids_arg : Advertisement.loc)
    (manufacturer_data_arg : dict) (local_name_arg : string)
    (h : gmap Advertisement.loc (list pyval))
    (ops : list Advertisement.operation) (d : daemon) :
  let self := Advertisement.__init__ advertising_type service_uuids_arg
                manufacturer_data_arg local_name_arg in
  let later := (Advertisement.apply_operations ops (self, h)).1 in
  Advertisement.path self = "/org/bluez/advertisement/test1" ∧
  Advertisement.service_name self = "org.bluez.LEAdvertisement1" ∧
  Advertisement.path later = "/org/bluez/advertisement/test1" ∧
  Advertisement.service_name later = "org.bluez.LEAdvertisement1" ∧
  Advertisement.Release later = "/org/bluez/advertisement/test1: Released!" ∧
  (∀ e, e ∈ trace (main d) →
        match e with
        | Export object_path _ => object_path = "/org/bluez/advertisement/test1"
        | Call m =>
            member m = "UnregisterAdvertisement" ∨ member m = "RegisterAdvertisement" →
            head (body m) = Some (PStr "/org/bluez/advertisement/test1")
        | _ => True
        end) ∧
  trace (main d) !! 1 =
    Some (Export "/org/bluez/advertisement/test1" Advertisement.new_default) ∧
  (∀ objects, usable_enumeration (enumeration_reply d) objects →
     valid_object_path (last_manager_path objects) →
     ∃ unregistration registration,
       trace (main d) !! 4 = Some (Call unregistration) ∧
       member unregistration = "UnregisterAdvertisement" ∧
       body unregistration = [PStr "/org/bluez/advertisement/test1"] ∧
       trace (main d) !! 5 = Some (Call registration) ∧
       member registration = "RegisterAdvertisement" ∧
       body registration = [PStr "/org/bluez/advertisement/test1"; PDict []]).
Proof.
  cbv zeta.
  destruct (AdvertisementFacts.apply_operations_path ops
              (Advertisement.__init__ advertising_type service_uuids_arg
                 manufacturer_data_arg local_name_arg, h)) as [Hpath Hname].
  simpl in Hpath, Hname.
  split; [done|]. split; [done|]. split; [done|]. split; [done|].
  split; [unfold Advertisement.Release; by rewrite Hpath|].
  split; [|split].
  - intros e He. unfold trace in He.
    destruct (main_run_shape d) as [[x Hrun]|[p Hrun]]; rewrite Hrun in He; simpl in He.
    + repeat (apply elem_of_cons in He as [->|He]); try done.
      * intros [H|H]; discriminate H.
      * by apply elem_of_nil in He.
    + destruct (complete_trace_cases d p) as [[_ Htr]|[l [_ Htr]]];
        rewrite Htr in He; simpl in He;
        repeat (apply elem_of_cons in He as [->|He]); try done;
        try (by apply elem_of_nil in He);
        intros [H|H]; discriminate H.
  - unfold trace.
    destruct (main_run_shape d) as [[x ->]|[p ->]]; [done|]. cbn [snd].
    by destruct (complete_trace_cases d p) as [[_ ->]|[l [_ ->]]].
  - intros objects Hu Hv. unfold trace. rewrite (main_run_valid d objects Hu Hv).
    cbn [snd].
    exists (unregister_msg (last_manager_path objects) "/org/bluez/advertisement/test1"),
           (register_msg (last_manager_path objects) "/org/bluez/advertisement/test1").
    by destruct (complete_trace_cases d (last_manager_path objects))
      as [[_ ->]|[l [_ ->]]].
Qed.

Lemma path_and_interface_name_fixed_witness :
  usable_enumeration (enumeration_reply Daemons.fresh_bluez) Daemons.two_adapters ∧
  valid_object_path (last_manager_path Daemons.two_adapters) ∧
  ∃ unregistration registration,
    trace (main Daemons.fresh_bluez) !! 4 = Some (Call unregistration) ∧
    member unregistration = "UnregisterAdvertisement" ∧
    body unregistration = [PStr "/org/bluez/advertisement/test1"] ∧
    trace (main Daemons.fresh_bluez) !! 5 = Some (Call registration) ∧
    member registration = "RegisterAdvertisement" ∧
    body registration = [PStr "/org/bluez/advertisement/test1"; PDict []].
Proof.
  assert (usable_enumeration (enumeration_reply Daemons.fresh_bluez) Daemons.two_adapters)
    as Hu.
  { split; [reflexivity|]. repeat constructor. }
  assert (valid_object_path (last_manager_path Daemons.two_adapters)) as Hv
    by reflexivity.
  split; [exact Hu|]. split; [exact Hv|].
  exact (proj2 (proj2 (proj2 (proj2 (proj2 (proj2 (proj2
           (path_and_interface_name_fixed "broadcast" 1%positive [] "n" ∅ []
              Daemons.fresh_bluez)))))))
           Daemons.two_adapters Hu Hv).
Defined.

End MainFacts.

(** * Further properties *)

(** ** [unpack_variants]: what it leaves alone and what it leaves behind *)

Module UnpackVariantsMore.
Import Py Spec Notions PyFacts.

(** No value is its own payload. *)
Lemma payload_differs (p : pyval) : ∀ sig, p ≠ PVariant sig p.
Proof.
  induction p as [| | | | |sig' q IH|xs _|d _] using pyval_nested_ind;
    intros sig Heq; try discriminate Heq.
  injection Heq as _ Hq. exact (IH sig' Hq).
Qed.

Lemma variant_value_fixed (x : pyval) :
  variant_value x = x ↔ is_variant x = false.
Proof.
  destruct x; simpl; try (split; reflexivity || done).
  split; [|done]. intros Heq. exfalso. by apply (payload_differs x signature).
Qed.

(** Unwrapping never gives the wrapper back. *)
Lemma unpack_entry_variant_differs (sig : string) (p : pyval) :
  unpack_entry (PVariant sig p) ≠ PVariant sig p.
Proof.
  rewrite unpack_entry_variant. destruct p; try discriminate.
  intros Heq. by apply (payload_differs (PVariant signature p) sig).
Qed.

Lemma map_variant_value_fixed (xs : list pyval) :
  map variant_value xs = xs ↔ Forall (λ x, is_variant x = false) xs.
Proof.
  induction xs as [|x xs IH]; simpl.
  - split; [constructor | done].
  - rewrite Forall_cons, <- IH, <- variant_value_fixed.
    split; [intros Heq; by injection Heq | intros [-> ->]; done].
Qed.

Lemma settled_dict (d : dict) :
  settled (PDict d) ↔ Forall (λ entry, settled entry.2) d.
Proof.
  simpl. induction d as [|[k x] d IH]; simpl.
  - split; [constructor | done].
  - by rewrite Forall_cons, IH.
Qed.

Lemma map_keys (f : pyval → pyval) (d : dict) :
  (map (λ '(k, x), (k, f x)) d).*1 = d.*1.
Proof. induction d as [|[k x] d IH]; [done|]. simpl. f_equal. exact IH. Qed.

Lemma map_entry_elem_of (f : pyval → pyval) (d : dict) (k : pykey) (v : pyval) :
  (k, v) ∈ d → (k, f v) ∈ map (λ '(k, x), (k, f x)) d.
Proof.
  induction d as [|[k0 v0] d IH]; simpl; intros Hin.
  - by apply elem_of_nil in Hin.
  - apply elem_of_cons in Hin as [Heq|Hin].
    + injection Heq as -> ->. apply list_elem_of_here.
    + apply list_elem_of_further. by apply IH.
Qed.

Lemma unpack_entry_fixed (v : pyval) :
  distinct_keys v → (unpack_entry v = v ↔ settled v).
Proof.
  induction v as [| | | | |sig p _|xs _|d IH] using pyval_nested_ind;
    intros Hd; try (simpl; split; done).
  - split; [|done]. intros Heq. by apply unpack_entry_variant_differs in Heq.
  - change (unpack_entry (PList xs)) with (PList (map variant_value xs)).
    rewrite <- (map_variant_value_fixed xs).
    split; [intros Heq; by injection Heq | by intros ->].
  - apply distinct_keys_dict in Hd as [Hnd Hall].
    rewrite unpack_entry_dict, unpack_variants_distinct, settled_dict by done.
    clear Hnd. induction d as [|[k x] d IHd]; [split; [constructor | done]|].
    apply Forall_cons in IH as [IHx IH]. apply Forall_cons in Hall as [Hx Hall].
    specialize (IHd IH Hall). simpl in IHx. rewrite Forall_cons. simpl.
    rewrite <- (IHx Hx), <- IHd.
    split.
    + intros Heq. injection Heq as Hx' Hd'. split; [done | by rewrite Hd'].
    + intros [-> Heq]. by injection Heq as ->.
Qed.

(** X1. A dictionary is returned unchanged by [unpack_variants] exactly
    when there is nothing to unwrap where the function looks: no value of
    the dictionary or of a dictionary nested in its values is a [Variant],
    and no list among those values has a [Variant] element. *)
Theorem unpack_variants_fixed_points (dictionary : dict) :
  distinct_keys (PDict dictionary) →
  (unpack_variants dictionary = dictionary ↔ settled (PDict dictionary)).
Proof.
  intros Hd. rewrite <- (unpack_entry_fixed (PDict dictionary) Hd), unpack_entry_dict.
  split; [by intros -> | intros Heq; by injection Heq].
Qed.

Lemma unpack_variants_fixed_points_witness :
  let d := [ (KStr "Address", PStr "00:11:22:33:44:55");
             (KStr "UUIDs", PList [PStr "180f"; PDict [(KStr "x", PVariant "y" (PInt 1))]]);
             (KStr "Inner", PDict [(KStr "Powered", PBool true)]) ] in
  distinct_keys (PDict d) ∧ settled (PDict d) ∧ unpack_variants d = d.
Proof.
  cbv zeta.
  match goal with |- distinct_keys (PDict ?d) ∧ _ => set (d0 := d) end.
  assert (distinct_keys (PDict d0)) as Hd.
  { simpl. repeat split; apply (bool_decide_unpack _); vm_compute; exact I. }
  assert (settled (PDict d0)) as Hs.
  { simpl. repeat split. repeat constructor. }
  split; [exact Hd|]. split; [exact Hs|].
  exact (proj2 (unpack_variants_fixed_points d0 Hd) Hs).
Defined.

(** X2. Unwrapping is one level deep.  When the value under a key is a
    [Variant] whose payload is again a [Variant], the result holds the inner
    [Variant] under that key, and a second pass of [unpack_variants] over
    the result changes it again: the function is not idempotent. *)
Theorem unpack_variants_one_level (dictionary : dict) (k : pykey)
    (outer inner : string) (x : pyval) :
  NoDup dictionary.*1 →
  (k, PVariant outer (PVariant inner x)) ∈ dictionary →
  dict_get k (unpack_variants dictionary) = Some (PVariant inner x) ∧
  unpack_variants (unpack_variants dictionary) ≠ unpack_variants dictionary.
Proof.
  intros Hnd Hin.
  assert (dict_get k (unpack_variants dictionary) = Some (PVariant inner x)) as Hget.
  { rewrite unpack_variants_distinct by done.
    by rewrite (dict_get_map_distinct unpack_entry dictionary k _ Hnd Hin). }
  split; [exact Hget|].
  intros Heq. rewrite <- Heq in Hget.
  rewrite (unpack_variants_distinct dictionary Hnd) in Hget.
  apply (map_entry_elem_of unpack_entry) in Hin.
  rewrite unpack_entry_variant in Hin.
  rewrite unpack_variants_distinct in Hget by (by rewrite map_keys).
  rewrite (dict_get_map_distinct unpack_entry _ k (PVariant inner x)) in Hget;
    [|by rewrite map_keys|exact Hin].
  injection Hget as Hget. by apply unpack_entry_variant_differs in Hget.
Qed.

Lemma unpack_variants_one_level_witness :
  let d := [ (KStr "Name", PVariant "s" (PStr "hci0"));
             (KStr "Boxed", PVariant "v" (PVariant "s" (PStr "twice"))) ] in
  NoDup d.*1 ∧
  dict_get (KStr "Boxed") (unpack_variants d) = Some (PVariant "s" (PStr "twice")) ∧
  unpack_variants (unpack_variants d) ≠ unpack_variants d.
Proof.
  cbv zeta.
  match goal with |- NoDup (?d).*1 ∧ _ => set (d0 := d) end.
  assert (NoDup d0.*1) as Hnd by (apply (bool_decide_unpack _); vm_compute; exact I).
  split; [exact Hnd|].
  apply (unpack_variants_one_level d0 (KStr "Boxed") "v" "s" (PStr "twice") Hnd).
  apply list_elem_of_further, list_elem_of_here.
Defined.

End UnpackVariantsMore.

(** ** Runs of operations on an advertisement *)

Module AdvertisementRuns.
Import Py Advertisement Notions.

(** No operation rebinds [_service_uuids] or [service_data]. *)
Lemma apply_operations_reference (ops : list operation) (st : BLEAdvertisement * heap) :
  service_uuids (apply_operations ops st).1 = service_uuids st.1 ∧
  service_data (apply_operations ops st).1 = service_data st.1.
Proof.
  revert st. induction ops as [|op ops IH]; intros st; [done|].
  simpl. destruct (IH (apply_operation op st)) as [-> ->]. by destruct op.
Qed.

Lemma apply_operations_list (ops : list operation) (self : BLEAdvertisement) (h : heap) :
  (apply_operations ops (self, h)).2 !! service_uuids self =
  (λ xs, xs ++ supplied_uuids ops) <$> h !! service_uuids self.
Proof.
  revert self h. induction ops as [|op ops IH]; intros self h.
  - simpl. destruct (h !! service_uuids self); simpl; [by rewrite app_nil_r | done].
  - destruct op as [t|u|data|n|]; simpl apply_operations;
      try (exact (IH _ h)).
    + unfold add_service_uuid. simpl.
      rewrite (IH self (alter (λ xs, xs ++ [u]) (_service_uuids self) h)).
      unfold service_uuids. rewrite lookup_alter_eq.
      destruct (h !! _service_uuids self); simpl; [|done].
      by rewrite <- app_assoc.
Qed.

Lemma apply_operations_elsewhere (ops : list operation) (self : BLEAdvertisement)
    (h : heap) (l : loc) :
  l ≠ service_uuids self →
  (apply_operations ops (self, h)).2 !! l = h !! l.
Proof.
  revert self h. induction ops as [|op ops IH]; intros self h Hne; [done|].
  destruct op as [t|u|data|n|]; simpl apply_operations;
    unfold set_advertisement_type, add_service_uuid, add_manufacturer_data, add_local_name;
    simpl fst; simpl snd.
  - by apply IH.
  - rewrite IH by done. by rewrite lookup_alter_ne.
  - by apply IH.
  - by apply IH.
  - destruct self. by apply IH.
Qed.

Lemma apply_operations_dom (ops : list operation) (st : BLEAdvertisement * heap) :
  dom (apply_operations ops st).2 = dom st.2.
Proof.
  revert st. induction ops as [|op ops IH]; intros st; [done|].
  simpl. rewrite IH. destruct op; try done.
  simpl. unfold add_service_uuid. simpl. apply dom_alter_L.
Qed.

Lemma apply_operations_data (ops : list operation) (st : BLEAdvertisement * heap) :
  last (manufacturer_data st.1 :: supplied_data ops) =
  Some (manufacturer_data (apply_operations ops st).1).
Proof.
  revert st. induction ops as [|op ops IH]; intros st; [done|].
  specialize (IH (apply_operation op st)). simpl apply_operations. rewrite <- IH.
  by destruct op.
Qed.

Lemma apply_operations_name (ops : list operation) (st : BLEAdvertisement * heap) :
  last (local_name st.1 :: supplied_names ops) =
  Some (local_name (apply_operations ops st).1).
Proof.
  revert st. induction ops as [|op ops IH]; intros st; [done|].
  specialize (IH (apply_operation op st)). simpl apply_operations. rewrite <- IH.
  by destruct op.
Qed.

(** X3. Service identifiers only accumulate.  After any run of setters and
    [Release], the list seen through [ServiceUUIDs] is the list the object
    started with followed by every argument given to [add_service_uuid], in
    call order: nothing is removed, reordered or deduplicated, and the other
    setters do not touch it. *)
Theorem service_uuids_accumulate (self : BLEAdvertisement) (h : heap)
    (uuids : list pyval) (ops : list operation) :
  service_uuids_value h self = Some uuids →
  let st := apply_operations ops (self, h) in
  service_uuids_value st.2 st.1 = Some (uuids ++ supplied_uuids ops).
Proof.
  intros Hl st. unfold service_uuids_value in *.
  unfold st. rewrite (proj1 (apply_operations_reference ops (self, h))). simpl.
  by rewrite apply_operations_list, Hl.
Qed.

Lemma service_uuids_accumulate_witness :
  let ops := [ SetServiceUUIDs (PStr "180f"); SetLocalName "kitchen";
               SetServiceUUIDs (PStr "ABCD"); CallRelease ] in
  let st := apply_operations ops (new_default, heap_at_import) in
  service_uuids_value heap_at_import new_default = Some [PStr "ABCD"] ∧
  service_uuids_value st.2 st.1 = Some [PStr "ABCD"; PStr "180f"; PStr "ABCD"].
Proof.
  cbv zeta.
  assert (service_uuids_value heap_at_import new_default = Some [PStr "ABCD"]) as Hl
    by apply lookup_singleton_eq.
  split; [exact Hl|].
  exact (service_uuids_accumulate new_default heap_at_import [PStr "ABCD"]
           [ SetServiceUUIDs (PStr "180f"); SetLocalName "kitchen";
             SetServiceUUIDs (PStr "ABCD"); CallRelease ] Hl).
Defined.

(** X4. After any run of setters and [Release], [ManufacturerData] and
    [LocalName] return the value supplied last for them (the constructor
    argument when their setter was never called), whatever was done to the
    other properties in between; [service_data] is still [None] and the
    object still holds the list object it was constructed with. *)
Theorem last_supplied_data_and_name
    (advertising_type : string) (service_uuids_arg : loc)
    (manufacturer_data_arg : dict) (local_name_arg : string) (h : heap)
    (ops : list operation) :
  let self :=
    (apply_operations ops
       (__init__ advertising_type service_uuids_arg manufacturer_data_arg local_name_arg, h)).1 in
  last (manufacturer_data_arg :: supplied_data ops) = Some (manufacturer_data self) ∧
  last (local_name_arg :: supplied_names ops) = Some (local_name self) ∧
  service_data self = PNone ∧
  service_uuids self = service_uuids_arg.
Proof.
  intros self. unfold self. split; [|split].
  - exact (apply_operations_data ops (__init__ _ _ _ _, h)).
  - exact (apply_operations_name ops (__init__ _ _ _ _, h)).
  - destruct (apply_operations_reference ops
                (__init__ advertising_type service_uuids_arg manufacturer_data_arg
                   local_name_arg, h)) as [-> ->]. done.
Qed.

(** X5. The only thing a run of operations on an object changes outside
    the object is the list object it holds: every other list of the heap
    keeps its elements, no list is allocated or freed, and so a second
    object holding a different list shows the same service identifiers
    before and after. *)
Theorem operations_touch_only_own_list (a : BLEAdvertisement) (h : heap)
    (ops : list operation) :
  let h' := (apply_operations ops (a, h)).2 in
  (∀ l, l ≠ service_uuids a → h' !! l = h !! l) ∧
  dom h' = dom h ∧
  (∀ b, service_uuids b ≠ service_uuids a →
        service_uuids_value h' b = service_uuids_value h b).
Proof.
  cbv zeta. split; [|split].
  - intros l Hne. by apply apply_operations_elsewhere.
  - exact (apply_operations_dom ops (a, h)).
  - intros b Hne. unfold service_uuids_value. by apply apply_operations_elsewhere.
Qed.

End AdvertisementRuns.

(** ** Outcomes of [main] *)

Module MainOutcomes.
Import Py DBus Main Spec Notions MainFacts.

(** The loop of lines 135-139 either finds only dictionaries and returns a
    path, or meets a value without [items] and raises. *)
Lemma select_adapter_cases (objects : dict) (p0 : pykey) :
  (Forall (λ entry, is_dict entry.2) objects ∧ ∃ p, select_adapter objects p0 = inr p) ∨
  (¬ Forall (λ entry, is_dict entry.2) objects ∧
   select_adapter objects p0 = inl AttributeError).
Proof.
  revert p0. induction objects as [|[k v] objects IH]; intros p0.
  - left. split; [constructor | by exists p0].
  - destruct v;
      try (right; split; [intros [[] _]%Forall_cons | reflexivity]).
    simpl.
    destruct (IH (if dict_contains (KStr Advertisement.LE_ADVERTISING_MANAGER_INTERFACE)
                       (unpack_variants items) then k else p0))
      as [[Hall Hp]|[Hnot He]].
    + left. split; [by constructor | exact Hp].
    + right. split; [|exact He]. by intros [_ Hall]%Forall_cons.
Qed.

Lemma managed_objects_index_error (reply : option Message) :
  managed_objects reply = inl IndexError ↔ ∃ r, reply = Some r ∧ body r = [].
Proof.
  unfold managed_objects. destruct reply as [r|].
  - destruct (body r) as [|v rest] eqn:Hb.
    + split; [intros _; by exists r | done].
    + split.
      * intros He. by destruct v.
      * intros (r' & Hr & Hb'). injection Hr as <-. rewrite Hb in Hb'. discriminate Hb'.
  - split; [done | by intros (r & Hr & _)].
Qed.

Lemma managed_objects_error (reply : option Message) (e : exn) :
  managed_objects reply = inl e → e = AttributeError ∨ e = IndexError.
Proof.
  unfold managed_objects. destruct reply as [r|]; [|intros Heq; injection Heq as <-; by left].
  destruct (body r) as [|v rest]; [intros Heq; injection Heq as <-; by right|].
  destruct v; intros Heq; try discriminate Heq; injection Heq as <-; by left.
Qed.

Lemma assert_object_path_valid_error (p : pykey) (e : exn) :
  assert_object_path_valid p = inl e → e = TypeError ∨ e = InvalidObjectPathError.
Proof.
  destruct p as [s|n]; simpl; [|intros Heq; injection Heq as <-; by left].
  destruct (is_object_path_valid s); [done | intros Heq; injection Heq as <-; by right].
Qed.

(** X6. [main] returns normally exactly when the reply to
    [GetManagedObjects] has a dictionary as first body element, every value
    of that dictionary is a dictionary, and the adapter path selected from
    it is an object path; it then ends by waiting for disconnection.  In
    every other case it raises before any unregistration or registration is
    sent and before anything is printed: [IndexError] exactly when the reply
    has an empty body, the exception of the [Message] constructor
    ([TypeError] or [InvalidObjectPathError]) exactly when the reply can be
    iterated over and the selected path is refused, [AttributeError]
    otherwise. *)
Theorem main_returns_iff_enumeration_usable (d : daemon) :
  (outcome (main d) = inr tt ↔
   ∃ objects, usable_enumeration (enumeration_reply d) objects ∧
              valid_object_path (last_manager_path objects)) ∧
  (outcome (main d) = inr tt → last (trace (main d)) = Some WaitForDisconnect) ∧
  (∀ e, outcome (main d) = inl e →
        trace (main d) = stopped_trace ∧
        (e = IndexError ↔ ∃ r, enumeration_reply d = Some r ∧ body r = []) ∧
        (e = TypeError ∨ e = InvalidObjectPathError ↔
         ∃ objects, usable_enumeration (enumeration_reply d) objects ∧
                    assert_object_path_valid (last_manager_path objects) = inl e)).
Proof.
  unfold outcome, trace, usable_enumeration, valid_object_path. rewrite main_run.
  pose proof (managed_objects_index_error (enumeration_reply d)) as Hidx.
  pose proof (managed_objects_error (enumeration_reply d)) as Hkind.
  destruct (managed_objects (enumeration_reply d)) as [e0|objects].
  - split; [|split].
    + split; [done | by intros (objects & [Hm _] & _)].
    + done.
    + intros e He. cbn [fst] in He. injection He as <-. split; [done|]. split.
      * rewrite <- Hidx. split; [by intros -> | intros Heq; by injection Heq].
      * split.
        -- intros Hlib. exfalso.
           destruct (Hkind e0 eq_refl) as [-> | ->]; destruct Hlib as [H|H]; discriminate H.
        -- by intros (objects & [Hm _] & _).
  - destruct (select_adapter_cases objects (KStr "/org/bluez/hci0"))
      as [[Hall [p Hp]]|[Hnot ->]].
    + rewrite Hp. rewrite (select_adapter_last objects _ Hall) in Hp.
      injection Hp as Hp. change (last_manager_path objects = p) in Hp. subst p.
      pose proof (assert_object_path_valid_error (last_manager_path objects)) as Hlib.
      destruct (assert_object_path_valid (last_manager_path objects)) as [e1|[]] eqn:Hv;
        cbn [fst snd].
      * split; [|split].
        -- split; [done|]. intros (objects' & [Hm _] & Hv'). injection Hm as <-.
           rewrite Hv in Hv'. discriminate Hv'.
        -- done.
        -- intros e He. injection He as <-. split; [done|]. split.
           ++ split.
              ** intros ->. destruct (Hlib _ eq_refl) as [H|H]; discriminate H.
              ** intros Hempty. apply Hidx in Hempty. discriminate Hempty.
           ++ split.
              ** intros _. by exists objects.
              ** intros _. exact (Hlib _ eq_refl).
      * split; [|split].
        -- split; [intros _; by exists objects | done].
        -- intros _.
           by destruct (complete_trace_cases d (last_manager_path objects))
             as [[_ ->]|[l [_ ->]]].
        -- done.
    + cbn [fst snd]. split; [|split].
      * split; [done|]. intros (objects' & [Hm Hall] & _). injection Hm as <-. done.
      * done.
      * intros e He. injection He as <-. split; [done|]. split.
        -- rewrite <- Hidx. split; [done | intros Heq; discriminate Heq].
        -- split.
           ++ intros [H|H]; discriminate H.
           ++ intros (objects' & [Hm Hall] & _). injection Hm as <-. done.
Qed.

Lemma main_returns_iff_enumeration_usable_witness :
  outcome (main Daemons.fresh_bluez) = inr tt ∧
  last (trace (main Daemons.fresh_bluez)) = Some WaitForDisconnect ∧
  outcome (main odd_bluez) = inl AttributeError ∧
  trace (main odd_bluez) = stopped_trace ∧
  outcome (main misnamed_bluez) = inl InvalidObjectPathError ∧
  trace (main misnamed_bluez) = stopped_trace.
Proof.
  assert (outcome (main Daemons.fresh_bluez) = inr tt) as Hok by reflexivity.
  assert (outcome (main odd_bluez) = inl AttributeError) as Herr by reflexivity.
  assert (outcome (main misnamed_bluez) = inl InvalidObjectPathError) as Hbad
    by reflexivity.
  split; [exact Hok|]. split.
  - exact (proj1 (proj2 (main_returns_iff_enumeration_usable Daemons.fresh_bluez)) Hok).
  - split; [exact Herr|]. split.
    + exact (proj1 (proj2 (proj2 (main_returns_iff_enumeration_usable odd_bluez))
                      AttributeError Herr)).
    + split; [exact Hbad|].
      exact (proj1 (proj2 (proj2 (main_returns_iff_enumeration_usable misnamed_bluez))
                      InvalidObjectPathError Hbad)).
Defined.

(** A selected key that is not a string stops [main] in the same place. *)
Example main_with_integer_key :
  run (main numbered_bluez) = (inl TypeError, stopped_trace).
Proof. reflexivity. Qed.

(** X7. What [main] sends depends on the first body element of the
    enumeration reply and on nothing else: two daemons whose enumeration
    replies are read alike receive the same requests, in the same order, and
    [main] ends the same way with both, however differently they answer
    the unregistration and the registration and whatever the type of the
    enumeration reply. *)
Theorem requests_depend_on_enumeration_only (d d' : daemon) :
  managed_objects (enumeration_reply d) = managed_objects (enumeration_reply d') →
  calls (trace (main d)) = calls (trace (main d')) ∧
  outcome (main d) = outcome (main d') ∧
  remote_operations (trace (main d)) = remote_operations (trace (main d')).
Proof.
  intros Heq. unfold outcome, trace. rewrite !main_run, Heq.
  destruct (managed_objects (enumeration_reply d')) as [e|objects]; [done|].
  destruct (select_adapter objects _) as [e|p]; [done|].
  destruct (assert_object_path_valid p) as [e|[]]; [done|]. cbn [fst snd].
  rewrite !calls_complete_trace. split; [done|]. split; [done|].
  destruct (complete_trace_cases d p) as [[_ ->]|[l [_ ->]]];
    by destruct (complete_trace_cases d' p) as [[_ ->]|[l' [_ ->]]].
Qed.

Lemma requests_depend_on_enumeration_only_witness :
  managed_objects (enumeration_reply Daemons.fresh_bluez) =
    managed_objects (enumeration_reply full_bluez) ∧
  printed (trace (main Daemons.fresh_bluez)) ≠ printed (trace (main full_bluez)) ∧
  calls (trace (main Daemons.fresh_bluez)) = calls (trace (main full_bluez)).
Proof.
  assert (managed_objects (enumeration_reply Daemons.fresh_bluez) =
          managed_objects (enumeration_reply full_bluez)) as Heq by reflexivity.
  split; [exact Heq|]. split; [discriminate|].
  exact (proj1 (requests_depend_on_enumeration_only Daemons.fresh_bluez full_bluez Heq)).
Defined.

End MainOutcomes.
